(** * Event-stream client connection binding (source/event_stream.c)

    A shallow embedding of the N-API binding that couples a native
    event-stream RPC client connection to a garbage-collected host object,
    and the lifetime properties of that binding.

    The binding is one heap allocation; every function of the C file takes a
    pointer to it.  The embedding keeps that allocation in a [world] together
    with the effects the C code has on its collaborators (the host runtime,
    the native connection library, the allocator): those effects are
    appended, in program order, to a trace.

    The file calls into code it does not contain: N-API, the reference
    counter and assertions of aws-c-common, the connection library
    aws-c-event-stream, and the helpers and macros of module.c and module.h.
    Calls whose result the code branches on are answered by the [napi_env]
    record or by an argument; the few helpers whose behaviour is written
    out here say so in their comment.  *)

From Stdlib Require Import Bool Arith ZArith List String Lia.
Import ListNotations.
Open Scope string_scope.
Open Scope list_scope.

Set Implicit Arguments.

(** ** Host values, handles and native pointers *)

(** [struct aws_socket_options]: copied by value into the binding; its
    contents are opaque to this file. *)
Record aws_socket_options := { socket_options_tag : nat }.

(** [struct aws_tls_ctx *] handed over inside a host external. *)
Definition aws_tls_ctx := nat.

(** A non-NULL [struct aws_event_stream_rpc_client_connection *]. *)
Definition connection_ptr := nat.

(** A non-NULL [napi_ref]. *)
Definition napi_ref := nat.

(** What the [void *] inside a host external points to. *)
Inductive ext_ptr : Type :=
| PtrNull
| PtrBinding
| PtrSocketOptions (o : aws_socket_options)
| PtrTlsCtx (t : aws_tls_ctx).

(** A host value ([napi_value]).  Numbers are the integral ones. *)
Inductive napi_value : Type :=
| JsUndefined
| JsNull
| JsString (s : string)
| JsNumber (z : Z)
| JsFunction (f : nat)
| JsObject (props : js_props)
| JsExternal (p : ext_ptr)
with js_props : Type :=
| PropsNil
| PropsCons (name : string) (v : napi_value) (rest : js_props).

Inductive napi_status : Type :=
| napi_ok
| napi_invalid_arg
| napi_generic_failure.

(** [struct aws_event_stream_connection_event_data]; the binding pointer it
    carries is the one allocation of the world. *)
Record aws_event_stream_connection_event_data := {
  error_code : Z;
  data_connection : option connection_ptr
}.

(** The [void *context] a thread-safe function hands to its handler: the
    pointer the function was created with.  The two handlers of this file
    read it as a pointer to [struct aws_event_stream_connection_event_data]. *)
Inductive context_ptr : Type :=
| ContextNull
| ContextBinding
| ContextEventData (d : aws_event_stream_connection_event_data).

(** A [napi_threadsafe_function]: the host callback it wraps, the resource
    name it was created under, and the context it was created with. *)
Record napi_threadsafe_function := {
  tsfn_callback : napi_value;
  tsfn_name : string;
  tsfn_context : context_ptr
}.

(** The host runtime as the C code sees it through one [napi_env]: the
    answers of the N-API calls whose result the code branches on. *)
Record napi_env := {
  env_get_cb_info_ok : bool;
  env_create_external_ok : bool;
  env_create_reference : napi_value -> option napi_ref;
  env_get_reference_value : napi_ref -> napi_status * option napi_value;
  env_create_uint32_ok : bool;
  env_create_threadsafe_function_ok : bool;
  env_string_new_ok : bool;
  env_dispatch_status : napi_status
}.

(** ** The binding *)

(** [struct aws_event_stream_client_connection_binding].  The allocator field
    is the process-wide allocator and is left out. *)
Record binding := {
  ref_count : nat;
  connection : option connection_ptr;
  is_closed : bool;
  host : option string;
  port : Z;
  socket_options : aws_socket_options;
  tls_connection_options : option aws_tls_ctx;
  using_tls : bool;
  node_event_stream_client_connection_ref : option napi_ref;
  node_event_stream_client_connection_external_ref : option napi_ref;
  on_connection_setup : option napi_threadsafe_function;
  on_connection_shutdown : option napi_threadsafe_function;
  on_protocol_message : option napi_threadsafe_function
}.

(** ** Effects *)

Inductive event : Type :=
| EvThrow (msg : string)
| EvCreateExternal
| EvCreateReference (r : napi_ref)
| EvDeleteReference (r : napi_ref)
| EvCreateThreadsafeFunction (name : string)
| EvReleaseThreadsafeFunction (name : string)
| EvRefAcquire
| EvRefRelease
| EvStringDestroy
| EvTlsCleanUp
| EvMemRelease
| EvNativeConnect (host_name : option string) (port : Z) (tls : bool) (ok : bool)
| EvNativeClose (c : connection_ptr) (code : string)
| EvNativeRelease (c : option connection_ptr)
| EvQueueSetup (d : aws_event_stream_connection_event_data)
| EvQueueShutdown (d : aws_event_stream_connection_event_data)
| EvHostSetup (proxy : napi_value) (code : Z)
| EvHostShutdown (proxy : napi_value) (code : Z).

(** A call queued on a thread-safe function: the context of the function,
    and the payload of the call, which the handler gets as its [user_data]. *)
Record queued_call := {
  call_context : context_ptr;
  call_data : aws_event_stream_connection_event_data
}.

(** The binding allocation ([None] before [aws_mem_calloc] and after
    [aws_mem_release]), the calls queued on the setup and shutdown
    thread-safe functions, and the effects so far. *)
Record world := {
  heap : option binding;
  setup_queue : list queued_call;
  shutdown_queue : list queued_call;
  trace : list event
}.

(** How a C function can end: it returns, the process aborts
    ([AWS_FATAL_ASSERT], [AWS_NAPI_ENSURE]), or it leaves the C semantics:
    it touches the binding allocation after it was released, or it reads
    through a pointer that is NULL or points at something else than its
    type says. *)
Inductive outcome (A : Type) : Type :=
| Done (a : A)
| Fatal (what : string)
| Undefined (what : string).

Arguments Fatal {A} what.
Arguments Undefined {A} what.

Definition bind {A B : Type} (m : outcome A) (k : A -> outcome B) : outcome B :=
  match m with
  | Done a => k a
  | Fatal s => Fatal s
  | Undefined s => Undefined s
  end.

Notation "x <- m ;; k" := (bind m (fun x => k))
  (at level 61, m at next level, right associativity).

Definition emit (e : event) (w : world) : world :=
  {| heap := heap w; setup_queue := setup_queue w;
     shutdown_queue := shutdown_queue w; trace := trace w ++ [e] |}.

Definition emits (es : list event) (w : world) : world :=
  {| heap := heap w; setup_queue := setup_queue w;
     shutdown_queue := shutdown_queue w; trace := trace w ++ es |}.

Definition set_heap (h : option binding) (w : world) : world :=
  {| heap := h; setup_queue := setup_queue w;
     shutdown_queue := shutdown_queue w; trace := trace w |}.

Definition store (b : binding) (w : world) : world := set_heap (Some b) w.

(** Dereference of the binding pointer. *)
Definition deref {A : Type} (w : world) (k : binding -> outcome A) : outcome A :=
  match heap w with
  | Some b => k b
  | None => Undefined "binding used after release"
  end.

(** Field updates, one per field the code assigns. *)
Definition set_ref_count (n : nat) (b : binding) : binding :=
  {| ref_count := n; connection := connection b; is_closed := is_closed b;
     host := host b; port := port b; socket_options := socket_options b;
     tls_connection_options := tls_connection_options b; using_tls := using_tls b;
     node_event_stream_client_connection_ref := node_event_stream_client_connection_ref b;
     node_event_stream_client_connection_external_ref :=
       node_event_stream_client_connection_external_ref b;
     on_connection_setup := on_connection_setup b;
     on_connection_shutdown := on_connection_shutdown b;
     on_protocol_message := on_protocol_message b |}.

Definition set_connection (c : option connection_ptr) (b : binding) : binding :=
  {| ref_count := ref_count b; connection := c; is_closed := is_closed b;
     host := host b; port := port b; socket_options := socket_options b;
     tls_connection_options := tls_connection_options b; using_tls := using_tls b;
     node_event_stream_client_connection_ref := node_event_stream_client_connection_ref b;
     node_event_stream_client_connection_external_ref :=
       node_event_stream_client_connection_external_ref b;
     on_connection_setup := on_connection_setup b;
     on_connection_shutdown := on_connection_shutdown b;
     on_protocol_message := on_protocol_message b |}.

Definition set_is_closed (v : bool) (b : binding) : binding :=
  {| ref_count := ref_count b; connection := connection b; is_closed := v;
     host := host b; port := port b; socket_options := socket_options b;
     tls_connection_options := tls_connection_options b; using_tls := using_tls b;
     node_event_stream_client_connection_ref := node_event_stream_client_connection_ref b;
     node_event_stream_client_connection_external_ref :=
       node_event_stream_client_connection_external_ref b;
     on_connection_setup := on_connection_setup b;
     on_connection_shutdown := on_connection_shutdown b;
     on_protocol_message := on_protocol_message b |}.

Definition set_host (h : option string) (b : binding) : binding :=
  {| ref_count := ref_count b; connection := connection b; is_closed := is_closed b;
     host := h; port := port b; socket_options := socket_options b;
     tls_connection_options := tls_connection_options b; using_tls := using_tls b;
     node_event_stream_client_connection_ref := node_event_stream_client_connection_ref b;
     node_event_stream_client_connection_external_ref :=
       node_event_stream_client_connection_external_ref b;
     on_connection_setup := on_connection_setup b;
     on_connection_shutdown := on_connection_shutdown b;
     on_protocol_message := on_protocol_message b |}.

Definition set_port (p : Z) (b : binding) : binding :=
  {| ref_count := ref_count b; connection := connection b; is_closed := is_closed b;
     host := host b; port := p; socket_options := socket_options b;
     tls_connection_options := tls_connection_options b; using_tls := using_tls b;
     node_event_stream_client_connection_ref := node_event_stream_client_connection_ref b;
     node_event_stream_client_connection_external_ref :=
       node_event_stream_client_connection_external_ref b;
     on_connection_setup := on_connection_setup b;
     on_connection_shutdown := on_connection_shutdown b;
     on_protocol_message := on_protocol_message b |}.

Definition set_socket_options (o : aws_socket_options) (b : binding) : binding :=
  {| ref_count := ref_count b; connection := connection b; is_closed := is_closed b;
     host := host b; port := port b; socket_options := o;
     tls_connection_options := tls_connection_options b; using_tls := using_tls b;
     node_event_stream_client_connection_ref := node_event_stream_client_connection_ref b;
     node_event_stream_client_connection_external_ref :=
       node_event_stream_client_connection_external_ref b;
     on_connection_setup := on_connection_setup b;
     on_connection_shutdown := on_connection_shutdown b;
     on_protocol_message := on_protocol_message b |}.

Definition set_tls (t : option aws_tls_ctx) (u : bool) (b : binding) : binding :=
  {| ref_count := ref_count b; connection := connection b; is_closed := is_closed b;
     host := host b; port := port b; socket_options := socket_options b;
     tls_connection_options := t; using_tls := u;
     node_event_stream_client_connection_ref := node_event_stream_client_connection_ref b;
     node_event_stream_client_connection_external_ref :=
       node_event_stream_client_connection_external_ref b;
     on_connection_setup := on_connection_setup b;
     on_connection_shutdown := on_connection_shutdown b;
     on_protocol_message := on_protocol_message b |}.

Definition set_connection_ref (r : option napi_ref) (b : binding) : binding :=
  {| ref_count := ref_count b; connection := connection b; is_closed := is_closed b;
     host := host b; port := port b; socket_options := socket_options b;
     tls_connection_options := tls_connection_options b; using_tls := using_tls b;
     node_event_stream_client_connection_ref := r;
     node_event_stream_client_connection_external_ref :=
       node_event_stream_client_connection_external_ref b;
     on_connection_setup := on_connection_setup b;
     on_connection_shutdown := on_connection_shutdown b;
     on_protocol_message := on_protocol_message b |}.

Definition set_external_ref (r : option napi_ref) (b : binding) : binding :=
  {| ref_count := ref_count b; connection := connection b; is_closed := is_closed b;
     host := host b; port := port b; socket_options := socket_options b;
     tls_connection_options := tls_connection_options b; using_tls := using_tls b;
     node_event_stream_client_connection_ref := node_event_stream_client_connection_ref b;
     node_event_stream_client_connection_external_ref := r;
     on_connection_setup := on_connection_setup b;
     on_connection_shutdown := on_connection_shutdown b;
     on_protocol_message := on_protocol_message b |}.

Definition set_on_connection_setup (f : option napi_threadsafe_function) (b : binding) : binding :=
  {| ref_count := ref_count b; connection := connection b; is_closed := is_closed b;
     host := host b; port := port b; socket_options := socket_options b;
     tls_connection_options := tls_connection_options b; using_tls := using_tls b;
     node_event_stream_client_connection_ref := node_event_stream_client_connection_ref b;
     node_event_stream_client_connection_external_ref :=
       node_event_stream_client_connection_external_ref b;
     on_connection_setup := f;
     on_connection_shutdown := on_connection_shutdown b;
     on_protocol_message := on_protocol_message b |}.

Definition set_on_connection_shutdown (f : option napi_threadsafe_function) (b : binding) : binding :=
  {| ref_count := ref_count b; connection := connection b; is_closed := is_closed b;
     host := host b; port := port b; socket_options := socket_options b;
     tls_connection_options := tls_connection_options b; using_tls := using_tls b;
     node_event_stream_client_connection_ref := node_event_stream_client_connection_ref b;
     node_event_stream_client_connection_external_ref :=
       node_event_stream_client_connection_external_ref b;
     on_connection_setup := on_connection_setup b;
     on_connection_shutdown := f;
     on_protocol_message := on_protocol_message b |}.

Definition set_on_protocol_message (f : option napi_threadsafe_function) (b : binding) : binding :=
  {| ref_count := ref_count b; connection := connection b; is_closed := is_closed b;
     host := host b; port := port b; socket_options := socket_options b;
     tls_connection_options := tls_connection_options b; using_tls := using_tls b;
     node_event_stream_client_connection_ref := node_event_stream_client_connection_ref b;
     node_event_stream_client_connection_external_ref :=
       node_event_stream_client_connection_external_ref b;
     on_connection_setup := on_connection_setup b;
     on_connection_shutdown := on_connection_shutdown b;
     on_protocol_message := f |}.

(** ** Reference counting *)

(** Modelled from the spec: [aws_ref_count_acquire] of aws-c-common, which is
    not part of this file.  "increments refcount"; the library asserts that
    the count it finds is not zero.  The count is a [size_t]; it is counted
    in [nat] here, short of the 2^64 acquires that would wrap it. *)
Definition aws_ref_count_acquire (w : world) : outcome world :=
  deref w (fun b =>
    match ref_count b with
    | O => Undefined "refcount has been zero"
    | S n => Done (emit EvRefAcquire (store (set_ref_count (S (S n)) b) w))
    end).

(** Modelled from the spec: [AWS_CLEAN_THREADSAFE_FUNCTION] of module.h,
    which is not part of this file.  "tears down all three dispatchers": a
    thread-safe function that is not NULL is released, and the field
    cleared. *)
Definition clean_threadsafe_function (f : option napi_threadsafe_function) : list event :=
  match f with
  | Some t => [EvReleaseThreadsafeFunction (tsfn_name t)]
  | None => []
  end.

(** What [s_aws_event_stream_client_connection_binding_on_zero] does to the
    binding it is called with, up to the release of its memory. *)
Definition on_zero_events (b : binding) : list event :=
  [EvStringDestroy; EvTlsCleanUp]
  ++ clean_threadsafe_function (on_connection_setup b)
  ++ clean_threadsafe_function (on_connection_shutdown b)
  ++ clean_threadsafe_function (on_protocol_message b)
  ++ [EvMemRelease].

(** [s_aws_event_stream_client_connection_binding_on_zero]: the context is
    the binding, which is not NULL. *)
Definition s_aws_event_stream_client_connection_binding_on_zero (w : world) : outcome world :=
  deref w (fun b => Done (set_heap None (emits (on_zero_events b) w))).

(** Modelled from the spec: [aws_ref_count_release] of aws-c-common.
    "decrements refcount; when it reaches zero, triggers an exclusive
    finalizer"; the finalizer is the [on_zero] function the count was
    initialised with in [aws_napi_event_stream_client_connection_new]. *)
Definition aws_ref_count_release (w : world) : outcome world :=
  deref w (fun b =>
    match ref_count b with
    | O => Undefined "refcount has gone negative"
    | S n =>
        let w1 := emit EvRefRelease (store (set_ref_count n b) w) in
        match n with
        | O => s_aws_event_stream_client_connection_binding_on_zero w1
        | S _ => Done w1
        end
    end).

(** A nullable pointer to the binding. *)
Inductive binding_ptr : Type := NullBinding | TheBinding.

Definition s_aws_event_stream_client_connection_binding_acquire
  (p : binding_ptr) (w : world) : outcome world :=
  match p with
  | NullBinding => Done w
  | TheBinding => aws_ref_count_acquire w
  end.

Definition s_aws_event_stream_client_connection_binding_release
  (p : binding_ptr) (w : world) : outcome world :=
  match p with
  | NullBinding => Done w
  | TheBinding => aws_ref_count_release w
  end.

(** ** Closing the binding *)

Definition delete_reference (r : option napi_ref) : list event :=
  match r with
  | Some x => [EvDeleteReference x]
  | None => []
  end.

(** [s_close_binding] on the binding record: the new record and the host
    references handed to [napi_delete_reference]. *)
Definition close_binding_fields (env : option napi_env) (b : binding) : binding * list event :=
  let b1 := set_is_closed true b in
  let node_event_stream_client_connection_external_ref' :=
    node_event_stream_client_connection_external_ref b1 in
  let b2 := set_external_ref None b1 in
  let node_event_stream_client_connection_ref' :=
    node_event_stream_client_connection_ref b2 in
  let b3 := set_connection_ref None b2 in
  match env with
  | Some _ =>
      (b3, delete_reference node_event_stream_client_connection_external_ref'
           ++ delete_reference node_event_stream_client_connection_ref')
  | None => (b3, [])
  end.

Definition s_close_binding (env : option napi_env) (w : world) : outcome world :=
  deref w (fun b =>
    let (b', es) := close_binding_fields env b in
    Done (emits es (store b' w))).

(** ** Collection of the host external *)

Definition s_aws_event_stream_client_connection_extern_finalize
  (env : option napi_env) (w : world) : outcome world :=
  deref w (fun b =>
    match connection b with
    | Some c =>
        Done (store (set_connection None b) (emit (EvNativeRelease (Some c)) w))
    | None =>
        if negb (is_closed b) then
          w1 <- s_close_binding env w ;;
          s_aws_event_stream_client_connection_binding_release TheBinding w1
        else Done w
    end).

(** ** Delivery of native events in the host thread *)

Definition napi_get_reference_value (env : napi_env) (r : option napi_ref)
  : napi_status * option napi_value :=
  match r with
  | Some x => env_get_reference_value env x
  | None => (napi_invalid_arg, None)
  end.

(** The host proxy behind the binding's reference, when the call succeeds
    and yields a value. *)
Definition resolve_proxy (env : napi_env) (b : binding) : option napi_value :=
  match napi_get_reference_value env (node_event_stream_client_connection_ref b) with
  | (napi_ok, Some v) => Some v
  | _ => None
  end.

(** [napi_create_uint32] takes a [uint32_t]: the [int] error code wraps. *)
Definition as_uint32 (code : Z) : Z := Z.modulo code (2 ^ 32).

(** Modelled from the spec: [AWS_NAPI_ENSURE] of module.h around
    [aws_napi_dispatch_threadsafe_function] of module.c, neither part of this
    file.  "deliver (error_code) to the host callback": the host callback
    has run when the status the host answers is [napi_ok]; the process
    aborts otherwise. *)
Definition ensure_dispatch (env : napi_env) (e : event) (w : world) : outcome world :=
  match env_dispatch_status env with
  | napi_ok => Done (emit e w)
  | _ => Fatal "aws_napi_dispatch_threadsafe_function"
  end.

(** The part of the shutdown handler before the [done] label. *)
Definition shutdown_notify (env : option napi_env)
  (shutdown_data : aws_event_stream_connection_event_data) (b : binding) (w : world)
  : outcome world :=
  match env with
  | Some e =>
      if negb (is_closed b) then
        match resolve_proxy e b with
        | None => Done w
        | Some proxy =>
            if env_create_uint32_ok e then
              ensure_dispatch e (EvHostShutdown proxy (as_uint32 (error_code shutdown_data))) w
            else Done w
        end
      else Done w
  | None => Done w
  end.

(** [s_napi_event_stream_connection_on_connection_shutdown]: the event
    data are read from [context]; [user_data], the payload that was queued,
    is not looked at.  [shutdown_data->binding] on a NULL [context], or on a
    [context] that points at something else than event data, is outside the
    C semantics. *)
Definition s_napi_event_stream_connection_on_connection_shutdown
  (env : option napi_env) (context : context_ptr)
  (user_data : option aws_event_stream_connection_event_data)
  (w : world) : outcome world :=
  match context with
  | ContextNull => Undefined "shutdown_data->binding: context is NULL"
  | ContextBinding => Undefined "shutdown_data->binding: context is not event data"
  | ContextEventData shutdown_data =>
      deref w (fun b =>
        match connection b with
        | None => Fatal "binding->connection != NULL"
        | Some _ =>
            w1 <- shutdown_notify env shutdown_data b w ;;
            w2 <- s_close_binding env w1 ;;
            deref w2 (fun b2 =>
              let w3 := emit (EvNativeRelease (connection b2)) w2 in
              let w4 := store (set_connection None b2) w3 in
              s_aws_event_stream_client_connection_binding_release TheBinding w4)
        end)
  end.

Definition AWS_CRT_NODEJS_ERROR_EVENT_STREAM_SETUP_ALREADY_CLOSED : string :=
  "AWS_CRT_NODEJS_ERROR_EVENT_STREAM_SETUP_ALREADY_CLOSED".

(** The [close] label of the setup handler, up to the [done] label. *)
Definition setup_close (env : option napi_env) (w : world) : outcome world :=
  w1 <- s_close_binding env w ;;
  deref w1 (fun b1 =>
    match connection b1 with
    | Some c =>
        Done (emit (EvNativeClose c AWS_CRT_NODEJS_ERROR_EVENT_STREAM_SETUP_ALREADY_CLOSED) w1)
    | None => Done w1
    end).

(** The [done] label of the setup handler. *)
Definition setup_done (w : world) : outcome world :=
  deref w (fun b =>
    match connection b with
    | None => s_aws_event_stream_client_connection_binding_release TheBinding w
    | Some _ => Done w
    end).

(** [s_napi_on_event_stream_client_connection_setup]: as in the shutdown
    handler, the event data are read from [context] and [user_data] is not
    looked at. *)
Definition s_napi_on_event_stream_client_connection_setup
  (env : option napi_env) (context : context_ptr)
  (user_data : option aws_event_stream_connection_event_data)
  (w : world) : outcome world :=
  match context with
  | ContextNull => Undefined "setup_data->binding: context is NULL"
  | ContextBinding => Undefined "setup_data->binding: context is not event data"
  | ContextEventData setup_data =>
      deref w (fun b0 =>
        let b := set_connection (data_connection setup_data) b0 in
        let w0 := store b w in
        w1 <- match env with
              | Some e =>
                  if negb (is_closed b) then
                    match resolve_proxy e b with
                    | None => setup_close env w0
                    | Some proxy =>
                        if env_create_uint32_ok e then
                          ensure_dispatch e
                            (EvHostSetup proxy (as_uint32 (error_code setup_data))) w0
                        else setup_close env w0
                    end
                  else setup_close env w0
              | None => setup_close env w0
              end ;;
        setup_done w1)
  end.

(** [s_napi_event_stream_connection_on_protocol_message]: an empty body. *)
Definition s_napi_event_stream_connection_on_protocol_message
  (env : option napi_env) (w : world) : outcome world := Done w.

(** ** Native-thread callbacks *)

(** Modelled from the spec: [AWS_NAPI_ENSURE] around
    [aws_napi_queue_threadsafe_function], of module.h and module.c.
    "enqueue(payload) is thread-safe and non-blocking": the payload goes to
    the end of the queue; queueing on a NULL thread-safe function fails, and
    the process aborts. *)
Definition s_aws_event_stream_rpc_client_on_connection_setup_fn
  (conn : option connection_ptr) (code : Z) (w : world) : outcome world :=
  deref w (fun b =>
    let setup_data := {| error_code := code; data_connection := conn |} in
    match on_connection_setup b with
    | Some f =>
        Done {| heap := heap w;
                setup_queue := setup_queue w
                               ++ [{| call_context := tsfn_context f;
                                      call_data := setup_data |}];
                shutdown_queue := shutdown_queue w;
                trace := trace w ++ [EvQueueSetup setup_data] |}
    | None => Fatal "aws_napi_queue_threadsafe_function"
    end).

Definition s_aws_event_stream_rpc_client_on_connection_shutdown_fn
  (conn : option connection_ptr) (code : Z) (w : world) : outcome world :=
  deref w (fun b =>
    let shutdown_data := {| error_code := code; data_connection := conn |} in
    match on_connection_shutdown b with
    | Some f =>
        Done {| heap := heap w; setup_queue := setup_queue w;
                shutdown_queue := shutdown_queue w
                                  ++ [{| call_context := tsfn_context f;
                                         call_data := shutdown_data |}];
                trace := trace w ++ [EvQueueShutdown shutdown_data] |}
    | None => Fatal "aws_napi_queue_threadsafe_function"
    end).

(** [s_aws_event_stream_rpc_client_connection_protocol_message_fn]: an empty
    body. *)
Definition s_aws_event_stream_rpc_client_connection_protocol_message_fn
  (w : world) : outcome world := Done w.

(** ** The host surface *)

(** [napi_throw_error]: the host sees an exception once the native function
    returns (NULL). *)
Definition throw (msg : string) (w : world) : world := emit (EvThrow msg) w.

Definition napi_get_value_external (v : napi_value) : option ext_ptr :=
  match v with
  | JsExternal p => Some p
  | _ => None
  end.

(** The [void *] of an external read as a pointer to the binding; a pointer
    to something else is outside the C semantics. *)
Definition as_binding_ptr (p : ext_ptr) : outcome binding_ptr :=
  match p with
  | PtrNull => Done NullBinding
  | PtrBinding => Done TheBinding
  | _ => Undefined "external does not hold a binding"
  end.

Definition aws_napi_event_stream_client_connection_close
  (env : napi_env) (info : list napi_value) (w : world) : outcome world :=
  if negb (env_get_cb_info_ok env) then
    Done (throw "aws_napi_event_stream_client_connection_close - Failed to retrieve arguments" w)
  else
    match info with
    | [node_binding] =>
        match napi_get_value_external node_binding with
        | None =>
            Done (throw "aws_napi_event_stream_client_connection_close - Failed to extract connection binding from first argument" w)
        | Some p =>
            ptr <- as_binding_ptr p ;;
            match ptr with
            | NullBinding =>
                Done (throw "aws_napi_event_stream_client_connection_close - binding was null" w)
            | TheBinding => s_close_binding (Some env) w
            end
        end
    | _ =>
        Done (throw "aws_napi_event_stream_client_connection_close - needs exactly 1 argument" w)
    end.

(** The thread-safe function [connect] creates for the setup handler: its
    context is the binding. *)
Definition setup_tsfn (callback : napi_value) : napi_threadsafe_function :=
  {| tsfn_callback := callback;
     tsfn_name := "aws_event_stream_client_connection_on_connection_setup";
     tsfn_context := ContextBinding |}.

(** [connect_result] is what [aws_event_stream_rpc_client_connection_connect]
    returns for this call: zero is [AWS_OP_SUCCESS]. *)
Definition aws_napi_event_stream_client_connection_connect
  (env : napi_env) (info : list napi_value) (connect_result : Z) (w : world)
  : outcome world :=
  if negb (env_get_cb_info_ok env) then
    Done (throw "aws_napi_event_stream_client_connection_connect - Failed to extract parameter array" w)
  else
    match info with
    | [node_binding; connection_setup_callback] =>
        match napi_get_value_external node_binding with
        | None =>
            Done (throw "aws_napi_event_stream_client_connection_connect - Failed to extract connection binding from first argument" w)
        | Some p =>
            ptr <- as_binding_ptr p ;;
            match ptr with
            | NullBinding =>
                Done (throw "aws_napi_event_stream_client_connection_connect - binding was null" w)
            | TheBinding =>
                deref w (fun b =>
                  if is_closed b then
                    Done (throw "aws_napi_event_stream_client_connection_connect - connection already closed" w)
                  else
                    match connection b with
                    | Some _ => Fatal "binding->connection == NULL"
                    | None =>
                        if negb (env_create_threadsafe_function_ok env) then
                          Done (throw "aws_napi_event_stream_client_connection_connect - failed to create threadsafe callback function" w)
                        else
                          let f := setup_tsfn connection_setup_callback in
                          let b1 := set_on_connection_setup (Some f) b in
                          let w1 := emit (EvCreateThreadsafeFunction (tsfn_name f)) (store b1 w) in
                          w2 <- s_aws_event_stream_client_connection_binding_acquire TheBinding w1 ;;
                          let ok := Z.eqb connect_result 0 in
                          let w3 := emit (EvNativeConnect (host b1) (port b1) (using_tls b1) ok) w2 in
                          if ok then Done w3
                          else
                            w4 <- s_aws_event_stream_client_connection_binding_release TheBinding w3 ;;
                            Done (throw "aws_napi_event_stream_client_connection_connect - synchronous failure invoking aws_event_stream_rpc_client_connection_connect" w4)
                    end)
            end
        end
    | _ =>
        Done (throw "aws_napi_event_stream_client_connection_connect - needs exactly 2 arguments" w)
    end.

(** The earlier revision of [connect] kept in the file: both preconditions
    are fatal assertions, and there is no closed check before them. *)
Module Earlier.

Definition aws_napi_event_stream_client_connection_connect
  (env : napi_env) (info : list napi_value) (connect_result : Z) (w : world)
  : outcome world :=
  if negb (env_get_cb_info_ok env) then
    Done (throw "aws_napi_event_stream_client_connection_connect - Failed to extract parameter array" w)
  else
    match info with
    | [node_binding; connection_setup_callback] =>
        match napi_get_value_external node_binding with
        | None =>
            Done (throw "aws_napi_event_stream_client_connection_connect - Failed to extract connection binding from first argument" w)
        | Some p =>
            ptr <- as_binding_ptr p ;;
            match ptr with
            | NullBinding =>
                Done (throw "aws_napi_event_stream_client_connection_connect - binding was null" w)
            | TheBinding =>
                deref w (fun b =>
                  match connection b with
                  | Some _ => Fatal "binding->connection == NULL"
                  | None =>
                      if is_closed b then Fatal "binding->is_closed == false"
                      else
                        if negb (env_create_threadsafe_function_ok env) then
                          Done (throw "aws_napi_event_stream_client_connection_connect - failed to create threadsafe callback function" w)
                        else
                          let f := setup_tsfn connection_setup_callback in
                          let b1 := set_on_connection_setup (Some f) b in
                          let w1 := emit (EvCreateThreadsafeFunction (tsfn_name f)) (store b1 w) in
                          w2 <- s_aws_event_stream_client_connection_binding_acquire TheBinding w1 ;;
                          let ok := Z.eqb connect_result 0 in
                          let w3 := emit (EvNativeConnect (host b1) (port b1) (using_tls b1) ok) w2 in
                          if ok then Done w3
                          else
                            w4 <- s_aws_event_stream_client_connection_binding_release TheBinding w3 ;;
                            Done (throw "aws_napi_event_stream_client_connection_connect - synchronous failure invoking aws_event_stream_rpc_client_connection_connect" w4)
                  end)
            end
        end
    | _ =>
        Done (throw "aws_napi_event_stream_client_connection_connect - needs exactly 2 arguments" w)
    end.

(** [close] of the earlier revision: the body that later became
    [s_close_binding], with no check of the environment. *)
Definition aws_napi_event_stream_client_connection_close
  (env : napi_env) (info : list napi_value) (w : world) : outcome world :=
  if negb (env_get_cb_info_ok env) then
    Done (throw "aws_napi_event_stream_client_connection_close - Failed to retrieve arguments" w)
  else
    match info with
    | [node_binding] =>
        match napi_get_value_external node_binding with
        | None =>
            Done (throw "aws_napi_event_stream_client_connection_close - Failed to extract connection binding from first argument" w)
        | Some p =>
            ptr <- as_binding_ptr p ;;
            match ptr with
            | NullBinding =>
                Done (throw "aws_napi_event_stream_client_connection_close - binding was null" w)
            | TheBinding =>
                deref w (fun b =>
                  let b1 := set_is_closed true b in
                  let node_event_stream_client_connection_external_ref' :=
                    node_event_stream_client_connection_external_ref b1 in
                  let b2 := set_external_ref None b1 in
                  let node_event_stream_client_connection_ref' :=
                    node_event_stream_client_connection_ref b2 in
                  let b3 := set_connection_ref None b2 in
                  Done (emits (delete_reference node_event_stream_client_connection_external_ref'
                               ++ delete_reference node_event_stream_client_connection_ref')
                              (store b3 w)))
            end
        end
    | _ =>
        Done (throw "aws_napi_event_stream_client_connection_close - needs exactly 1 argument" w)
    end.

End Earlier.

(** ** Construction *)

(** Modelled from the spec: [aws_napi_is_null_or_undefined] of module.c,
    which is not part of this file; it is what its name says. *)
Definition aws_napi_is_null_or_undefined (v : napi_value) : bool :=
  match v with
  | JsUndefined | JsNull => true
  | _ => false
  end.

Inductive aws_napi_get_named_property_result : Type :=
| AWS_NGNPR_VALID_VALUE
| AWS_NGNPR_INVALID_VALUE
| AWS_NGNPR_NO_VALUE.

Inductive napi_valuetype : Type :=
| napi_undefined | napi_null | napi_string | napi_number
| napi_function | napi_object | napi_external.

Definition napi_typeof (v : napi_value) : napi_valuetype :=
  match v with
  | JsUndefined => napi_undefined
  | JsNull => napi_null
  | JsString _ => napi_string
  | JsNumber _ => napi_number
  | JsFunction _ => napi_function
  | JsObject _ => napi_object
  | JsExternal _ => napi_external
  end.

Definition napi_valuetype_eqb (a b : napi_valuetype) : bool :=
  match a, b with
  | napi_undefined, napi_undefined | napi_null, napi_null
  | napi_string, napi_string | napi_number, napi_number
  | napi_function, napi_function | napi_object, napi_object
  | napi_external, napi_external => true
  | _, _ => false
  end.

Fixpoint get_property (name : string) (ps : js_props) : option napi_value :=
  match ps with
  | PropsNil => None
  | PropsCons n v rest => if String.eqb n name then Some v else get_property name rest
  end.

(** Modelled from the spec: [aws_napi_get_named_property] of module.c, which
    is not part of this file.  "host name present": the value is valid when
    the object has the property and the property has the requested type. *)
Definition aws_napi_get_named_property
  (object : napi_value) (name : string) (type : napi_valuetype)
  : aws_napi_get_named_property_result * option napi_value :=
  match object with
  | JsObject ps =>
      match get_property name ps with
      | None => (AWS_NGNPR_NO_VALUE, None)
      | Some v =>
          if napi_valuetype_eqb (napi_typeof v) type then (AWS_NGNPR_VALID_VALUE, Some v)
          else if aws_napi_is_null_or_undefined v then (AWS_NGNPR_NO_VALUE, None)
          else (AWS_NGNPR_INVALID_VALUE, None)
      end
  | _ => (AWS_NGNPR_NO_VALUE, None)
  end.

Definition UINT16_MAX : Z := 65535.

(** Modelled from the spec: [aws_napi_get_named_property_as_uint16] of
    module.c, which is not part of this file.  "port is a valid 16-bit
    value", and "create(config with port=0 or missing host) -> create
    returns an argument error": a number property from 1 to 65535. *)
Definition aws_napi_get_named_property_as_uint16
  (object : napi_value) (name : string)
  : aws_napi_get_named_property_result * option Z :=
  match aws_napi_get_named_property object name napi_number with
  | (AWS_NGNPR_VALID_VALUE, Some (JsNumber z)) =>
      if (1 <=? z)%Z && (z <=? UINT16_MAX)%Z then (AWS_NGNPR_VALID_VALUE, Some z)
      else (AWS_NGNPR_INVALID_VALUE, None)
  | (AWS_NGNPR_VALID_VALUE, _) => (AWS_NGNPR_INVALID_VALUE, None)
  | (r, _) => (r, None)
  end.

Definition AWS_EVENT_STREAM_PROPERTY_NAME_HOST : string := "hostName".
Definition AWS_EVENT_STREAM_PROPERTY_NAME_PORT : string := "port".

Inductive aws_error : Type := AWS_ERROR_INVALID_ARGUMENT.

(** [aws_string_new_from_napi] of module.c: NULL when the host says the
    string cannot be read. *)
Definition aws_string_new_from_napi (env : napi_env) (v : napi_value) : option string :=
  match v with
  | JsString s => if env_string_new_ok env then Some s else None
  | _ => None
  end.

(** [s_init_event_stream_connection_configuration_from_js_connection_configuration]:
    the binding as the function leaves it, and the error it raised, if any
    ([None] is [AWS_OP_SUCCESS]). *)
Definition s_init_event_stream_connection_configuration_from_js_connection_configuration
  (env : napi_env) (node_connection_options : napi_value) (b : binding)
  : binding * option aws_error :=
  match aws_napi_get_named_property
          node_connection_options AWS_EVENT_STREAM_PROPERTY_NAME_HOST napi_string with
  | (AWS_NGNPR_VALID_VALUE, Some host_name_property) =>
      let b1 := set_host (aws_string_new_from_napi env host_name_property) b in
      match host b1 with
      | None => (b1, Some AWS_ERROR_INVALID_ARGUMENT)
      | Some _ =>
          match aws_napi_get_named_property_as_uint16
                  node_connection_options AWS_EVENT_STREAM_PROPERTY_NAME_PORT with
          | (AWS_NGNPR_VALID_VALUE, Some p) => (set_port p b1, None)
          | _ => (b1, Some AWS_ERROR_INVALID_ARGUMENT)
          end
      end
  | _ => (b, Some AWS_ERROR_INVALID_ARGUMENT)
  end.

(** [aws_mem_calloc] followed by [aws_ref_count_init]: every field zero, one
    reference. *)
Definition fresh_binding : binding :=
  {| ref_count := 1; connection := None; is_closed := false;
     host := None; port := 0%Z; socket_options := {| socket_options_tag := 0 |};
     tls_connection_options := None; using_tls := false;
     node_event_stream_client_connection_ref := None;
     node_event_stream_client_connection_external_ref := None;
     on_connection_setup := None; on_connection_shutdown := None;
     on_protocol_message := None |}.

(** One stretch of the constructor between two [goto done] exits: it goes on
    with the binding updated, or throws, or leaves the C semantics. *)
Inductive stage : Type :=
| Next (b : binding) (es : list event)
| Stop (b : binding) (es : list event) (msg : string)
| Wild (what : string).

Definition and_then (s : stage) (k : binding -> stage) : stage :=
  match s with
  | Next b es =>
      match k b with
      | Next b' es' => Next b' (es ++ es')
      | Stop b' es' msg => Stop b' (es ++ es') msg
      | Wild what => Wild what
      end
  | Stop b es msg => Stop b es msg
  | Wild what => Wild what
  end.

(** The thread-safe functions [create] makes for the shutdown and the
    message handler: their context is NULL. *)
Definition shutdown_tsfn (callback : napi_value) : napi_threadsafe_function :=
  {| tsfn_callback := callback;
     tsfn_name := "aws_event_stream_client_connection_on_connection_shutdown";
     tsfn_context := ContextNull |}.

Definition message_tsfn (callback : napi_value) : napi_threadsafe_function :=
  {| tsfn_callback := callback;
     tsfn_name := "aws_event_stream_client_connection_on_protocol_message";
     tsfn_context := ContextNull |}.

Definition node_external : napi_value := JsExternal PtrBinding.

(** Arg #1: the js event stream connection. *)
Definition new_arg_connection (env : napi_env) (node_connection : napi_value) (b : binding) : stage :=
  if aws_napi_is_null_or_undefined node_connection then
    Stop b [] "event_stream_client_connection_new - Required connection parameter is null"
  else
    match env_create_reference env node_connection with
    | Some r => Next (set_connection_ref (Some r) b) [EvCreateReference r]
    | None =>
        Stop b [] "event_stream_client_connection_new - Failed to create reference to node event stream connection"
    end.

(** Arg #2: the event stream connection options object. *)
Definition new_arg_options (env : napi_env) (node_connection_options : napi_value) (b : binding) : stage :=
  if aws_napi_is_null_or_undefined node_connection_options then
    Stop b [] "event_stream_client_connection_new - Required options parameter is null"
  else
    match s_init_event_stream_connection_configuration_from_js_connection_configuration
            env node_connection_options b with
    | (b1, None) => Next b1 []
    | (b1, Some _) =>
        Stop b1 [] "event_stream_client_connection_new - failed to initialize native connection configuration from js connection configuration"
    end.

(** Arg #3: on disconnect event handler. *)
Definition new_arg_shutdown (env : napi_env) (handler : napi_value) (b : binding) : stage :=
  if aws_napi_is_null_or_undefined handler then
    Stop b [] "event_stream_client_connection_new - required on_connection_shutdown event handler is null"
  else if env_create_threadsafe_function_ok env then
    Next (set_on_connection_shutdown (Some (shutdown_tsfn handler)) b)
         [EvCreateThreadsafeFunction (tsfn_name (shutdown_tsfn handler))]
  else
    Stop b [] "event_stream_client_connection_new - failed to initialize on_connection_shutdown event handler".

(** Arg #4: on protocol message event handler. *)
Definition new_arg_message (env : napi_env) (handler : napi_value) (b : binding) : stage :=
  if aws_napi_is_null_or_undefined handler then
    Stop b [] "event_stream_client_connection_new - required on_protocol_message event handler is null"
  else if env_create_threadsafe_function_ok env then
    Next (set_on_protocol_message (Some (message_tsfn handler)) b)
         [EvCreateThreadsafeFunction (tsfn_name (message_tsfn handler))]
  else
    Stop b [] "event_stream_client_connection_new - failed to initialize on_protocol_message event handler".

(** Arg #5: socket options. *)
Definition new_arg_socket_options (node_socket_options : napi_value) (b : binding) : stage :=
  if aws_napi_is_null_or_undefined node_socket_options then Next b []
  else
    match napi_get_value_external node_socket_options with
    | None =>
        Stop b [] "event_stream_client_connection_new - Unable to extract socket_options from external"
    | Some PtrNull => Stop b [] "event_stream_client_connection_new - Null socket options"
    | Some (PtrSocketOptions o) => Next (set_socket_options o b) []
    | Some _ => Wild "external does not hold socket options"
    end.

(** Arg #6: tls options. *)
Definition new_arg_tls (node_tls : napi_value) (b : binding) : stage :=
  if aws_napi_is_null_or_undefined node_tls then Next b []
  else
    match napi_get_value_external node_tls with
    | None =>
        Stop b [] "event_stream_client_connection_new - Failed to extract tls_ctx from external"
    | Some (PtrTlsCtx t) => Next (set_tls (Some t) true b) []
    | Some _ => Wild "external does not hold a tls context"
    end.

Definition new_external_ref (env : napi_env) (b : binding) : stage :=
  match env_create_reference env node_external with
  | Some r => Next (set_external_ref (Some r) b) [EvCreateReference r]
  | None =>
      Stop b [] "event_stream_client_connection_new - Failed to create one count reference to napi external"
  end.

(** [aws_napi_event_stream_client_connection_new]: the value returned to the
    host (NULL on every failure) and the world it leaves.  The binding is
    allocated by this call. *)
Definition aws_napi_event_stream_client_connection_new
  (env : napi_env) (info : list napi_value) (w : world)
  : outcome (option napi_value * world) :=
  if negb (env_get_cb_info_ok env) then
    Done (None, throw "event_stream_client_connection_new - Failed to retrieve arguments" w)
  else
    match info with
    | [node_connection; node_connection_options; on_connection_shutdown_event_handler;
       on_protocol_message_event_handler; node_socket_options; node_tls] =>
        if negb (env_create_external_ok env) then
          Done (None,
                throw "event_stream_client_connection_new - Failed to create n-api external"
                      (emit EvMemRelease (set_heap None w)))
        else
          let w0 := emit EvCreateExternal w in
          match and_then (new_arg_connection env node_connection fresh_binding) (fun b1 =>
                and_then (new_arg_options env node_connection_options b1) (fun b2 =>
                and_then (new_arg_shutdown env on_connection_shutdown_event_handler b2) (fun b3 =>
                and_then (new_arg_message env on_protocol_message_event_handler b3) (fun b4 =>
                and_then (new_arg_socket_options node_socket_options b4) (fun b5 =>
                and_then (new_arg_tls node_tls b5) (fun b6 =>
                new_external_ref env b6)))))) with
          | Next b es => Done (Some node_external, emits es (store b w0))
          | Stop b es msg => Done (None, throw msg (emits es (store b w0)))
          | Wild what => Undefined what
          end
    | _ =>
        Done (None, throw "event_stream_client_connection_new - needs exactly 6 arguments" w)
    end.

(** ** Reading the trace *)

Definition is_ref_acquire (e : event) : bool :=
  match e with EvRefAcquire => true | _ => false end.

Definition is_ref_release (e : event) : bool :=
  match e with EvRefRelease => true | _ => false end.

Definition is_mem_release (e : event) : bool :=
  match e with EvMemRelease => true | _ => false end.

Definition is_host_callback (e : event) : bool :=
  match e with EvHostSetup _ _ | EvHostShutdown _ _ => true | _ => false end.

Definition is_native_release (e : event) : bool :=
  match e with EvNativeRelease _ => true | _ => false end.

Definition is_native_close (e : event) : bool :=
  match e with EvNativeClose _ _ => true | _ => false end.

Definition is_accepted_connect (e : event) : bool :=
  match e with EvNativeConnect _ _ _ true => true | _ => false end.

Definition is_queue_setup (e : event) : bool :=
  match e with EvQueueSetup _ => true | _ => false end.

Definition count (p : event -> bool) (es : list event) : nat :=
  List.length (List.filter p es).

(** ** The native library and the dispatcher, as far as this file relies on
    them

    The native connection library calls the setup callback once per accepted
    connect, and the shutdown callback once per connection it handed out in a
    setup callback, with message callbacks for that connection in between;
    the dispatcher takes the queued calls one at a time, oldest first, and
    calls the handler in the host thread with the context the thread-safe
    function was created with and the payload of the call as user data.  The
    message callback of this file has an empty body: nothing is ever queued
    for the message handler. *)

(** Accepted connects whose setup callback has not been called yet. *)
Definition pending_setups (w : world) : nat :=
  count is_accepted_connect (trace w) - count is_queue_setup (trace w).

Definition handed_out (c : connection_ptr) (e : event) : bool :=
  match e with
  | EvQueueSetup d =>
      match data_connection d with Some c' => Nat.eqb c c' | None => false end
  | _ => false
  end.

Definition shut_down (c : connection_ptr) (e : event) : bool :=
  match e with
  | EvQueueShutdown d =>
      match data_connection d with Some c' => Nat.eqb c c' | None => false end
  | _ => false
  end.

(** Connections handed out whose shutdown callback has not been called yet. *)
Definition awaiting_shutdown (c : connection_ptr) (w : world) : bool :=
  Nat.ltb (count (shut_down c) (trace w)) (count (handed_out c) (trace w)).

Inductive label : Type :=
| HostConnect (env : napi_env) (info : list napi_value) (connect_result : Z)
| HostClose (env : napi_env) (info : list napi_value)
| Collect (env : option napi_env)
| NativeSetup (conn : option connection_ptr) (code : Z)
| NativeShutdown (c : connection_ptr) (code : Z)
| NativeMessage (c : connection_ptr)
| DeliverSetup (env : option napi_env)
| DeliverShutdown (env : option napi_env).

Definition pop_setup (w : world) : option (queued_call * world) :=
  match setup_queue w with
  | [] => None
  | d :: q =>
      Some (d, {| heap := heap w; setup_queue := q;
                  shutdown_queue := shutdown_queue w; trace := trace w |})
  end.

Definition pop_shutdown (w : world) : option (queued_call * world) :=
  match shutdown_queue w with
  | [] => None
  | d :: q =>
      Some (d, {| heap := heap w; setup_queue := setup_queue w;
                  shutdown_queue := q; trace := trace w |})
  end.

(** One step of the whole: [None] when the step cannot happen in [w]. *)
Definition step (l : label) (w : world) : option (outcome world) :=
  match l with
  | HostConnect env info r =>
      Some (aws_napi_event_stream_client_connection_connect env info r w)
  | HostClose env info =>
      Some (aws_napi_event_stream_client_connection_close env info w)
  | Collect env =>
      Some (s_aws_event_stream_client_connection_extern_finalize env w)
  | NativeSetup conn code =>
      if Nat.ltb 0 (pending_setups w)
      then Some (s_aws_event_stream_rpc_client_on_connection_setup_fn conn code w)
      else None
  | NativeShutdown c code =>
      if awaiting_shutdown c w
      then Some (s_aws_event_stream_rpc_client_on_connection_shutdown_fn (Some c) code w)
      else None
  | NativeMessage c =>
      if awaiting_shutdown c w
      then Some (s_aws_event_stream_rpc_client_connection_protocol_message_fn w)
      else None
  | DeliverSetup env =>
      match pop_setup w with
      | Some (q, w') =>
          Some (s_napi_on_event_stream_client_connection_setup
                  env (call_context q) (Some (call_data q)) w')
      | None => None
      end
  | DeliverShutdown env =>
      match pop_shutdown w with
      | Some (q, w') =>
          Some (s_napi_event_stream_connection_on_connection_shutdown
                  env (call_context q) (Some (call_data q)) w')
      | None => None
      end
  end.

(** A run: every step can happen and returns. *)
Fixpoint run (ls : list label) (w : world) : option world :=
  match ls with
  | [] => Some w
  | l :: rest =>
      match step l w with
      | Some (Done w') => run rest w'
      | _ => None
      end
  end.

(** The empty world: nothing allocated, nothing queued, nothing done. *)
Definition empty_world : world :=
  {| heap := None; setup_queue := []; shutdown_queue := []; trace := [] |}.

(** ** Derived notions used by the properties *)

(** The [closed] flag of the binding; a released binding has none left to
    reset. *)
Definition closed_or_gone (w : world) : bool :=
  match heap w with
  | Some b => is_closed b
  | None => true
  end.

(** Nothing native is outstanding: no accepted connect waits for its setup
    callback, no payload is queued. *)
Definition quiescent (w : world) : Prop :=
  pending_setups w = 0
  /\ (forall c, awaiting_shutdown c w = false)
  /\ setup_queue w = [] /\ shutdown_queue w = [].

(** The steps that are a delivery of a native event, to the dispatcher or to
    the host thread. *)
Definition is_delivery (l : label) : bool :=
  match l with
  | NativeSetup _ _ | NativeShutdown _ _ | NativeMessage _
  | DeliverSetup _ | DeliverShutdown _ => true
  | _ => false
  end.

(** A host [connect] step that the native library accepts. *)
Definition is_accepted (l : label) : bool :=
  match l with
  | HostConnect _ _ r => Z.eqb r 0
  | _ => false
  end.

(** The binding after [s_close_binding]. *)
Definition closed_fields (b : binding) : binding :=
  set_connection_ref None (set_external_ref None (set_is_closed true b)).

(** The events of a trace continuation that tell the host something. *)
Definition not_callback (e : event) : bool := negb (is_host_callback e).

(** [close] called [n] times in a row. *)
Fixpoint s_close_binding_times (n : nat) (env : option napi_env) (w : world) : outcome world :=
  match n with
  | O => Done w
  | S k => w' <- s_close_binding env w ;; s_close_binding_times k env w'
  end.

Fixpoint close_times (n : nat) (env : napi_env) (info : list napi_value) (w : world)
  : outcome world :=
  match n with
  | O => Done w
  | S k => w' <- aws_napi_event_stream_client_connection_close env info w ;;
           close_times k env info w'
  end.

(** Sequences of acquire and release calls on the binding. *)
Inductive ref_op : Type := OpAcquire | OpRelease.

Definition ref_step (o : ref_op) (w : world) : outcome world :=
  match o with
  | OpAcquire => s_aws_event_stream_client_connection_binding_acquire TheBinding w
  | OpRelease => s_aws_event_stream_client_connection_binding_release TheBinding w
  end.

Fixpoint ref_run (ops : list ref_op) (w : world) : outcome world :=
  match ops with
  | [] => Done w
  | o :: rest => w' <- ref_step o w ;; ref_run rest w'
  end.

(** The count after [ops] from [n] references, provided no call is made on a
    count of zero. *)
Fixpoint ref_balance (n : nat) (ops : list ref_op) : option nat :=
  match ops with
  | [] => Some n
  | o :: rest =>
      match n with
      | O => None
      | S m =>
          match o with
          | OpAcquire => ref_balance (S n) rest
          | OpRelease => ref_balance m rest
          end
      end
  end.

(** A balanced sequence gives back every reference it took and the one it
    started with. *)
Definition balanced (ops : list ref_op) : Prop := ref_balance 1 ops = Some 0.

(** How often the zero-count finalizer has run. *)
Definition finalizer_runs (w : world) : nat := count is_mem_release (trace w).

(** The reference count of the binding, zero once it is released. *)
Definition references (w : world) : nat :=
  match heap w with
  | Some b => ref_count b
  | None => 0
  end.

(** ** Notions the proofs are stated with *)

(** [m] satisfies [Q] whenever it returns. *)
Definition returns (m : outcome world) (Q : world -> Prop) : Prop :=
  forall w', m = Done w' -> Q w'.

(** [w'] continues the trace of [w] with events that all satisfy [ok]. *)
Definition continues (ok : event -> bool) (w w' : world) : Prop :=
  exists es, trace w' = trace w ++ es /\ forallb ok es = true.

(** Once closed, the binding stays closed and the host hears nothing. *)
Definition stays_closed (w w' : world) : Prop :=
  closed_or_gone w = true ->
  closed_or_gone w' = true /\ continues not_callback w w'.


(** What the native library reacts to or produces: an accepted connect, a
    payload queued by one of its callbacks. *)
Definition is_native_activity (e : event) : bool :=
  match e with
  | EvNativeConnect _ _ _ true | EvQueueSetup _ | EvQueueShutdown _ => true
  | _ => false
  end.

Definition calm (e : event) : bool :=
  negb (is_native_activity e || is_host_callback e).

(** A step that neither involves the native library nor calls the host, and
    leaves the dispatcher queues alone. *)
Definition quiet_step (w w' : world) : Prop :=
  continues calm w w'
  /\ setup_queue w' = setup_queue w /\ shutdown_queue w' = shutdown_queue w.

(** The binding after a [connect] call that reached the native library: the
    setup handler is registered; the reference taken for the attempt is still
    held when the attempt was accepted, and given back when it was not. *)
Definition connecting (callback : napi_value) (b : binding) : binding :=
  set_ref_count (S (ref_count b)) (set_on_connection_setup (Some (setup_tsfn callback)) b).

Definition not_connecting (callback : napi_value) (b : binding) : binding :=
  set_ref_count (ref_count b) (set_on_connection_setup (Some (setup_tsfn callback)) b).

Definition connect_events (b : binding) (ok : bool) : list event :=
  [EvCreateThreadsafeFunction "aws_event_stream_client_connection_on_connection_setup";
   EvRefAcquire;
   EvNativeConnect (host b) (port b) (using_tls b) ok].

Definition connect_failure_events : list event :=
  [EvRefRelease;
   EvThrow "aws_napi_event_stream_client_connection_connect - synchronous failure invoking aws_event_stream_rpc_client_connection_connect"].

(** The preconditions of a [connect] call that reaches the native library. *)
Definition connectable (env : napi_env) (w : world) (b : binding) : Prop :=
  heap w = Some b /\ is_closed b = false /\ connection b = None
  /\ 0 < ref_count b
  /\ env_get_cb_info_ok env = true
  /\ env_create_threadsafe_function_ok env = true.

(** The fields [close] has no business with: the connection, the three
    thread-safe functions, the cached configuration, the reference count. *)
Definition same_outside_close (b b' : binding) : Prop :=
  connection b' = connection b
  /\ on_connection_setup b' = on_connection_setup b
  /\ on_connection_shutdown b' = on_connection_shutdown b
  /\ on_protocol_message b' = on_protocol_message b
  /\ host b' = host b /\ port b' = port b
  /\ socket_options b' = socket_options b
  /\ tls_connection_options b' = tls_connection_options b
  /\ using_tls b' = using_tls b
  /\ ref_count b' = ref_count b.

(** What [close] leaves of a live binding, whenever it returns. *)
Definition close_leaves (b : binding) (w w' : world) : Prop :=
  exists b',
    heap w' = Some b'
    /\ same_outside_close b b'
    /\ (b' = b \/ b' = closed_fields b)
    /\ setup_queue w' = setup_queue w /\ shutdown_queue w' = shutdown_queue w.

(** The trace has [a] acquires and [r] releases of binding references, and
    the binding holds [n] references: a live binding has [n > 0] and [c] in
    its connection field, a released one has [n = 0]. *)
Definition holding (n : nat) (c : option connection_ptr) (a r : nat) (w : world) : Prop :=
  count is_ref_acquire (trace w) = a
  /\ count is_ref_release (trace w) = r
  /\ match heap w with
     | Some b => ref_count b = n /\ connection b = c /\ 0 < n
     | None => n = 0
     end.

(** Native close and release calls on one connection. *)
Definition closes (x : connection_ptr) (e : event) : bool :=
  match e with
  | EvNativeClose c _ => Nat.eqb c x
  | _ => false
  end.

Definition releases (x : connection_ptr) (e : event) : bool :=
  match e with
  | EvNativeRelease (Some c) => Nat.eqb c x
  | _ => false
  end.

(** What giving back a reference can do: the release itself and, for the
    last reference, the teardown of [on_zero]. *)
Definition is_teardown (e : event) : bool :=
  match e with
  | EvRefRelease | EvStringDestroy | EvTlsCleanUp | EvMemRelease
  | EvReleaseThreadsafeFunction _ => true
  | _ => false
  end.

(** The configuration object [create] accepts: a string under "hostName"
    that can be copied, and a number from 1 to 65535 under "port". *)
Definition valid_configuration (env : napi_env) (options : napi_value) : Prop :=
  exists ps s z,
    options = JsObject ps
    /\ get_property AWS_EVENT_STREAM_PROPERTY_NAME_HOST ps = Some (JsString s)
    /\ env_string_new_ok env = true
    /\ get_property AWS_EVENT_STREAM_PROPERTY_NAME_PORT ps = Some (JsNumber z)
    /\ (1 <= z <= UINT16_MAX)%Z.

(** A binding nothing has happened to yet: the reference of construction,
    no connection, not closed. *)
Definition pristine (b : binding) : Prop :=
  ref_count b = 1 /\ connection b = None /\ is_closed b = false.

(** What a stage of the constructor hands on: a binding nothing has happened
    to, whether it goes on or throws. *)
Definition stage_pristine (s : stage) : Prop :=
  match s with
  | Next b _ | Stop b _ _ => pristine b
  | Wild _ => True
  end.

(** ** A concrete host *)

Definition sample_proxy : napi_value := JsObject PropsNil.

(** Every call succeeds; reference 1 is the host proxy, reference 2 the
    external. *)
Definition sample_env : napi_env :=
  {| env_get_cb_info_ok := true;
     env_create_external_ok := true;
     env_create_reference :=
       fun v => match v with JsExternal _ => Some 2 | _ => Some 1 end;
     env_get_reference_value :=
       fun r => if Nat.eqb r 1 then (napi_ok, Some sample_proxy)
                else (napi_ok, Some node_external);
     env_create_uint32_ok := true;
     env_create_threadsafe_function_ok := true;
     env_string_new_ok := true;
     env_dispatch_status := napi_ok |}.

Definition sample_options (p : Z) : napi_value :=
  JsObject (PropsCons "hostName" (JsString "localhost")
           (PropsCons "port" (JsNumber p) PropsNil)).

Definition sample_info (options : napi_value) : list napi_value :=
  [sample_proxy; options; JsFunction 1; JsFunction 2; JsUndefined; JsUndefined].

(** The binding [create] builds from [sample_info (sample_options 8080)]. *)
Definition sample_binding : binding :=
  {| ref_count := 1; connection := None; is_closed := false;
     host := Some "localhost"; port := 8080%Z;
     socket_options := {| socket_options_tag := 0 |};
     tls_connection_options := None; using_tls := false;
     node_event_stream_client_connection_ref := Some 1;
     node_event_stream_client_connection_external_ref := Some 2;
     on_connection_setup := None;
     on_connection_shutdown := Some (shutdown_tsfn (JsFunction 1));
     on_protocol_message := Some (message_tsfn (JsFunction 2)) |}.

Definition sample_world : world :=
  {| heap := Some sample_binding; setup_queue := []; shutdown_queue := [];
     trace := [EvCreateExternal; EvCreateReference 1;
               EvCreateThreadsafeFunction "aws_event_stream_client_connection_on_connection_shutdown";
               EvCreateThreadsafeFunction "aws_event_stream_client_connection_on_protocol_message";
               EvCreateReference 2] |}.

(** The same binding after the host closed it. *)
Definition sample_closed_world : world :=
  {| heap := Some (closed_fields sample_binding);
     setup_queue := []; shutdown_queue := [];
     trace := trace sample_world ++ [EvDeleteReference 2; EvDeleteReference 1] |}.




(** A connect was accepted and the host closed the binding before the setup
    callback came. *)
Definition sample_abandoned_binding : binding :=
  closed_fields (connecting (JsFunction 3) sample_binding).

Definition sample_abandoned_world : world :=
  {| heap := Some sample_abandoned_binding;
     setup_queue := []; shutdown_queue := [];
     trace := trace sample_world ++ connect_events sample_binding true
              ++ [EvDeleteReference 2; EvDeleteReference 1] |}.

(** The native library hands out connection 7 to the closed binding. *)
Definition sample_abandoned_reported_world : world :=
  Eval vm_compute in
    match run [NativeSetup (Some 7) 0] sample_abandoned_world with
    | Some w => w
    | None => empty_world
    end.

(** The native library hands out connection 7 and shuts it down, the
    external is collected, and the host calls [connect] and [close] again. *)
Definition sample_abandoned_steps : list label :=
  [NativeSetup (Some 7) 0; NativeShutdown 7 0; Collect (Some sample_env);
   HostConnect sample_env [node_external; JsFunction 4] 0;
   HostClose sample_env [node_external]].

Definition sample_abandoned_end : world :=
  Eval vm_compute in
    match run sample_abandoned_steps sample_abandoned_world with
    | Some w => w
    | None => empty_world
    end.

(** Options without a host name. *)
Definition sample_options_no_host : napi_value :=
  JsObject (PropsCons "port" (JsNumber 8080) PropsNil).

(** A connect that is accepted. *)
Definition sample_connect : label :=
  HostConnect sample_env [node_external; JsFunction 3] 0.

(** The attempt fails: the native library reports error 5 and no
    connection in its setup callback. *)
Definition sample_failed_report_world : world :=
  Eval vm_compute in
    match run [sample_connect; NativeSetup None 5] sample_world with
    | Some w => w
    | None => empty_world
    end.

(** The attempt succeeds, and the connection is shut down later: the native
    library reports connection 7 in its setup callback, and then its end in
    its shutdown callback. *)
Definition sample_shut_down_world : world :=
  Eval vm_compute in
    match run [sample_connect; NativeSetup (Some 7) 0; NativeShutdown 7 0] sample_world with
    | Some w => w
    | None => empty_world
    end.

(** ** Notions for the further properties *)

Definition is_throw (e : event) : bool :=
  match e with EvThrow _ => true | _ => false end.

Definition is_delete (e : event) : bool :=
  match e with EvDeleteReference _ => true | _ => false end.

(** Host reference [r] handed to [napi_delete_reference]. *)
Definition deletes (r : napi_ref) (e : event) : bool :=
  match e with
  | EvDeleteReference x => Nat.eqb x r
  | _ => false
  end.

(** How many of the two reference fields of the binding hold [r]. *)
Definition holds_reference (r : napi_ref) (w : world) : nat :=
  match heap w with
  | Some b =>
      (match node_event_stream_client_connection_external_ref b with
       | Some x => if Nat.eqb x r then 1 else 0
       | None => 0
       end)
      + (match node_event_stream_client_connection_ref b with
         | Some x => if Nat.eqb x r then 1 else 0
         | None => 0
         end)
  | None => 0
  end.

(** Deletions of [r] done, plus deletions of [r] still owed. *)
Definition reference_budget (r : napi_ref) (w : world) : nat :=
  count (deletes r) (trace w) + holds_reference r w.

(** The socket options argument of [create]: left out, or an external that
    holds socket options. *)
Definition optional_socket_options (v : napi_value) : option (option aws_socket_options) :=
  if aws_napi_is_null_or_undefined v then Some None
  else match v with
       | JsExternal (PtrSocketOptions o) => Some (Some o)
       | _ => None
       end.

(** The tls argument of [create]: left out, or an external that holds a tls
    context. *)
Definition optional_tls (v : napi_value) : option (option aws_tls_ctx) :=
  if aws_napi_is_null_or_undefined v then Some None
  else match v with
       | JsExternal (PtrTlsCtx t) => Some (Some t)
       | _ => None
       end.

(** The binding a successful [create] leaves. *)
Definition created_binding
  (connection_ref external_ref : napi_ref) (host_name : string) (port_number : Z)
  (on_shutdown on_message : napi_value)
  (so : option aws_socket_options) (tls : option aws_tls_ctx) : binding :=
  {| ref_count := 1; connection := None; is_closed := false;
     host := Some host_name; port := port_number;
     socket_options := match so with Some o => o | None => {| socket_options_tag := 0 |} end;
     tls_connection_options := tls;
     using_tls := match tls with Some _ => true | None => false end;
     node_event_stream_client_connection_ref := Some connection_ref;
     node_event_stream_client_connection_external_ref := Some external_ref;
     on_connection_setup := None;
     on_connection_shutdown := Some (shutdown_tsfn on_shutdown);
     on_protocol_message := Some (message_tsfn on_message) |}.

Definition created_events (connection_ref external_ref : napi_ref) : list event :=
  [EvCreateExternal; EvCreateReference connection_ref;
   EvCreateThreadsafeFunction "aws_event_stream_client_connection_on_connection_shutdown";
   EvCreateThreadsafeFunction "aws_event_stream_client_connection_on_protocol_message";
   EvCreateReference external_ref].

(** What [create] needs of the host and of its six arguments to succeed. *)
Definition creatable (env : napi_env) (info : list napi_value) (b : binding)
  (r1 r2 : napi_ref) : Prop :=
  exists c o s m so t ps host_name z oso otls,
    info = [c; o; s; m; so; t]
    /\ env_get_cb_info_ok env = true
    /\ env_create_external_ok env = true
    /\ aws_napi_is_null_or_undefined c = false
    /\ env_create_reference env c = Some r1
    /\ o = JsObject ps
    /\ get_property AWS_EVENT_STREAM_PROPERTY_NAME_HOST ps = Some (JsString host_name)
    /\ env_string_new_ok env = true
    /\ get_property AWS_EVENT_STREAM_PROPERTY_NAME_PORT ps = Some (JsNumber z)
    /\ (1 <= z <= UINT16_MAX)%Z
    /\ aws_napi_is_null_or_undefined s = false
    /\ aws_napi_is_null_or_undefined m = false
    /\ env_create_threadsafe_function_ok env = true
    /\ optional_socket_options so = Some oso
    /\ optional_tls t = Some otls
    /\ env_create_reference env node_external = Some r2
    /\ b = created_binding r1 r2 host_name z s m oso otls.

(** A [connect] or [close] call that did nothing but throw. *)
Definition only_threw (w w' : world) : Prop :=
  heap w' = heap w
  /\ setup_queue w' = setup_queue w /\ shutdown_queue w' = shutdown_queue w
  /\ exists msg, trace w' = trace w ++ [EvThrow msg].


(** The world a successful [create] leaves. *)
Definition created_world (b : binding) (r1 r2 : napi_ref) : world :=
  {| heap := Some b; setup_queue := []; shutdown_queue := [];
     trace := created_events r1 r2 |}.

Definition is_native_connect (e : event) : bool :=
  match e with EvNativeConnect _ _ _ _ => true | _ => false end.

(** What a [connect] call that reached the native library added to the
    trace, for its result [r]. *)
Definition connect_trace (b : binding) (r : Z) : list event :=
  connect_events b (Z.eqb r 0)
  ++ (if Z.eqb r 0 then [] else connect_failure_events).

(** What giving a reference back adds to the trace after the release
    itself: nothing, or the teardown of the binding when the reference was
    the last one. *)
Definition after_release (n : nat) (es : list event) : Prop :=
  match n with
  | O => exists b0, es = on_zero_events b0
  | S _ => es = []
  end.

(** The events [close] can add: a thrown error, a deleted host reference. *)
Definition is_close_event (e : event) : bool := is_throw e || is_delete e.

(** No step adds to what is deleted or owed of any host reference. *)
Definition within_budget (w w' : world) : Prop :=
  forall r, reference_budget r w' <= reference_budget r w.

Definition not_delete (e : event) : bool := negb (is_delete e).

(** A binding that is closed while nothing native is outstanding and no
    connection is held, with [n] references on it. *)
Definition parked (n : nat) (w : world) : Prop :=
  quiescent w
  /\ exists b, heap w = Some b /\ is_closed b = true /\ connection b = None
               /\ ref_count b = n.

Definition is_release_threadsafe_function (e : event) : bool :=
  match e with EvReleaseThreadsafeFunction _ => true | _ => false end.

Definition is_create_threadsafe_function (e : event) : bool :=
  match e with EvCreateThreadsafeFunction _ => true | _ => false end.

(** The host calls [connect] on the handle, once per callback, and the
    native library accepts every call. *)
Definition accepted_connects (env : napi_env) (callbacks : list napi_value) : list label :=
  map (fun callback => HostConnect env [node_external; callback] 0) callbacks.

(** The setup dispatcher after these calls: the one of the last call. *)
Definition last_setup_tsfn (callbacks : list napi_value)
  (f : option napi_threadsafe_function) : option napi_threadsafe_function :=
  last (map (fun callback => Some (setup_tsfn callback)) callbacks) f.

(** What the collection of the external adds to the trace of a binding
    that was never connected: the closing of the binding, then the release
    of its only reference and with it the teardown. *)
Definition collected_events (env : option napi_env) (b : binding) : list event :=
  snd (close_binding_fields env b) ++ EvRefRelease :: on_zero_events b.

(** ** The contexts of the thread-safe functions *)

Definition has_context (c : context_ptr) (f : option napi_threadsafe_function) : Prop :=
  match f with
  | Some t => tsfn_context t = c
  | None => True
  end.

(** The setup and the shutdown thread-safe function of a binding have the
    contexts [connect] and [create] make them with. *)
Definition binding_registered (b : binding) : Prop :=
  has_context ContextBinding (on_connection_setup b)
  /\ has_context ContextNull (on_connection_shutdown b).

(** The same of the world: of its binding and of the calls that are queued. *)
Definition registered (w : world) : Prop :=
  Forall (fun q => call_context q = ContextBinding) (setup_queue w)
  /\ Forall (fun q => call_context q = ContextNull) (shutdown_queue w)
  /\ match heap w with
     | Some b => binding_registered b
     | None => True
     end.

(** The binding holds no connection. *)
Definition connection_empty (w : world) : Prop :=
  match heap w with
  | Some b => connection b = None
  | None => True
  end.

(** The dispatcher calls one of the two handlers. *)
Definition is_handler_call (l : label) : bool :=
  match l with
  | DeliverSetup _ | DeliverShutdown _ => true
  | _ => false
  end.

(** What only the handlers, or the finalizer of a binding that holds a
    connection, do: call the host, close or release a native connection. *)
Definition is_handler_effect (e : event) : bool :=
  is_host_callback e || is_native_close e || is_native_release e.

Definition no_handler_effect (e : event) : bool := negb (is_handler_effect e).

Definition not_mem_release (e : event) : bool := negb (is_mem_release e).

(** Besides what the collection of the external gives back, a reference is
    held on the binding: two references while it is open, one once it is
    closed. *)
Definition attempt_held (w : world) : Prop :=
  exists b,
    heap w = Some b /\ connection b = None
    /\ (if is_closed b then 1 else 2) <= ref_count b.


(** ** Further sample worlds *)

(** [sample_world] after a [connect] the native library accepted. *)
Definition sample_attempt_binding : binding := connecting (JsFunction 3) sample_binding.

Definition sample_attempt_world : world :=
  emits (connect_events sample_binding true) (store sample_attempt_binding sample_world).

(** What the host and the collector try on a binding the host has closed. *)
Definition sample_parked_steps : list label :=
  [HostConnect sample_env [node_external; JsFunction 3] 0;
   Collect (Some sample_env);
   HostClose sample_env [node_external]].
(** * Properties *)

Arguments count : simpl never.

Unset Implicit Arguments.

(** ** Reasoning about results *)

Lemma returns_done (w : world) (Q : world -> Prop) : Q w -> returns (Done w) Q.
Proof. intros HQ w' E. inversion E. subst. exact HQ. Qed.

Lemma returns_fatal (s : string) (Q : world -> Prop) : returns (Fatal s) Q.
Proof. intros w' E. discriminate E. Qed.

Lemma returns_undefined (s : string) (Q : world -> Prop) : returns (Undefined s) Q.
Proof. intros w' E. discriminate E. Qed.

Lemma returns_bind (m : outcome world) (k : world -> outcome world) (Q : world -> Prop) :
  returns m (fun w1 => returns (k w1) Q) -> returns (bind m k) Q.
Proof.
  intros H w' E. destruct m as [w1| |]; simpl in E; try discriminate E.
  exact (H w1 eq_refl w' E).
Qed.

Lemma returns_deref (w : world) (k : binding -> outcome world) (Q : world -> Prop) :
  (forall b, heap w = Some b -> returns (k b) Q) -> returns (deref w k) Q.
Proof.
  intros H. unfold deref. destruct (heap w) as [b|] eqn:Hb.
  - apply H. reflexivity.
  - apply returns_undefined.
Qed.

Lemma returns_weaken (m : outcome world) (P Q : world -> Prop) :
  returns m P -> (forall w, P w -> Q w) -> returns m Q.
Proof. intros H HPQ w' E. apply HPQ, (H w' E). Qed.

(** ** Traces *)

Lemma count_app (p : event -> bool) (xs ys : list event) :
  count p (xs ++ ys) = count p xs + count p ys.
Proof. unfold count. rewrite filter_app, length_app. reflexivity. Qed.

Lemma count_none (p : event -> bool) (es : list event) :
  forallb (fun e => negb (p e)) es = true -> count p es = 0.
Proof.
  unfold count. induction es as [|e es IH]; simpl; intros H; [reflexivity|].
  apply andb_prop in H. destruct H as [He Hes].
  destruct (p e); [discriminate He|]. apply IH, Hes.
Qed.

Lemma continues_refl ok w w' : trace w' = trace w -> continues ok w w'.
Proof. intros E. exists []. rewrite app_nil_r. split; [exact E|reflexivity]. Qed.

Lemma continues_trans ok w1 w2 w3 :
  continues ok w1 w2 -> continues ok w2 w3 -> continues ok w1 w3.
Proof.
  intros [es1 [E1 H1]] [es2 [E2 H2]]. exists (es1 ++ es2). split.
  - rewrite E2, E1, app_assoc. reflexivity.
  - rewrite forallb_app, H1, H2. reflexivity.
Qed.

Lemma continues_count ok p w w' :
  (forall e, ok e = true -> p e = false) ->
  continues ok w w' -> count p (trace w') = count p (trace w).
Proof.
  intros Hok [es [E H]]. rewrite E, count_app, (count_none p es); [lia|].
  rewrite forallb_forall in *. intros e He. rewrite (Hok e (H e He)). reflexivity.
Qed.

Lemma forallb_delete_reference ok r :
  (forall x, ok (EvDeleteReference x) = true) -> forallb ok (delete_reference r) = true.
Proof. intros H. destruct r; simpl; [rewrite H|]; reflexivity. Qed.

Lemma forallb_clean_threadsafe_function ok f :
  (forall x, ok (EvReleaseThreadsafeFunction x) = true) ->
  forallb ok (clean_threadsafe_function f) = true.
Proof. intros H. destruct f; simpl; [rewrite H|]; reflexivity. Qed.

(** ** The closed flag and host callbacks *)

Lemma stays_closed_trans w1 w2 w3 :
  stays_closed w1 w2 -> stays_closed w2 w3 -> stays_closed w1 w3.
Proof.
  intros H12 H23 Hc. destruct (H12 Hc) as [Hc2 E12].
  destruct (H23 Hc2) as [Hc3 E23]. split; [exact Hc3|].
  exact (continues_trans _ _ _ _ E12 E23).
Qed.

Lemma stays_closed_throw msg w : stays_closed w (throw msg w).
Proof. intros Hc. split; [exact Hc|]. exists [EvThrow msg]. split; reflexivity. Qed.

Lemma stays_closed_same w w' :
  heap w' = heap w -> trace w' = trace w -> stays_closed w w'.
Proof.
  intros Hh Ht Hc. split.
  - unfold closed_or_gone in *. rewrite Hh. exact Hc.
  - apply continues_refl, Ht.
Qed.

Ltac step_returns :=
  match goal with
  | |- returns (Done _) _ => apply returns_done
  | |- returns (Fatal _) _ => apply returns_fatal
  | |- returns (Undefined _) _ => apply returns_undefined
  | |- returns (deref _ _) _ =>
      let b := fresh "b" in let Hheap := fresh "Hheap" in
      apply returns_deref; intros b Hheap
  | |- returns (match ?x with _ => _ end) _ => destruct x eqn:?
  | |- returns (if ?x then _ else _) _ => destruct x eqn:?
  end.

Lemma on_zero_stays_closed w :
  returns (s_aws_event_stream_client_connection_binding_on_zero w) (stays_closed w).
Proof.
  unfold s_aws_event_stream_client_connection_binding_on_zero.
  repeat step_returns. intros _. split; [reflexivity|].
  eexists. split; [reflexivity|]. unfold on_zero_events. simpl.
  rewrite !forallb_app, !forallb_clean_threadsafe_function; reflexivity.
Qed.

Ltac use_heap :=
  unfold closed_or_gone in *; simpl in *;
  repeat match goal with
    | H : heap ?w = _, H' : context [heap ?w] |- _ => rewrite H in H'
    | H : heap ?w = _ |- context [heap ?w] => rewrite H
    end;
  simpl in *; try assumption; try reflexivity; try congruence.

Lemma stays_closed_emit e w b :
  not_callback e = true ->
  (closed_or_gone w = true -> is_closed b = true) ->
  stays_closed w (emit e (store b w)).
Proof.
  intros He Hb Hc. split.
  - apply Hb, Hc.
  - exists [e]. split; [reflexivity|]. simpl. rewrite He. reflexivity.
Qed.

Lemma release_stays_closed p w :
  returns (s_aws_event_stream_client_connection_binding_release p w) (stays_closed w).
Proof.
  unfold s_aws_event_stream_client_connection_binding_release, aws_ref_count_release.
  repeat step_returns.
  - apply stays_closed_same; reflexivity.
  - eapply returns_weaken; [apply on_zero_stays_closed|]. intros w' H.
    refine (stays_closed_trans _ _ _ _ H).
    apply stays_closed_emit; [reflexivity|]. intros Hc. use_heap.
  - apply stays_closed_emit; [reflexivity|]. intros Hc. use_heap.
Qed.

Lemma acquire_stays_closed p w :
  returns (s_aws_event_stream_client_connection_binding_acquire p w) (stays_closed w).
Proof.
  unfold s_aws_event_stream_client_connection_binding_acquire, aws_ref_count_acquire.
  repeat step_returns.
  - apply stays_closed_same; reflexivity.
  - apply stays_closed_emit; [reflexivity|]. intros Hc. use_heap.
Qed.

Lemma close_binding_fields_fst env b :
  fst (close_binding_fields env b) = closed_fields b.
Proof. destruct env; reflexivity. Qed.

Lemma close_binding_fields_snd ok env b :
  (forall x, ok (EvDeleteReference x) = true) ->
  forallb ok (snd (close_binding_fields env b)) = true.
Proof.
  intros H. destruct env; simpl; [|reflexivity].
  rewrite forallb_app, !forallb_delete_reference; auto.
Qed.

(** What [s_close_binding] returns, when it returns. *)
Lemma s_close_binding_returns env w (Q : world -> Prop) :
  (forall b, heap w = Some b ->
     Q (emits (snd (close_binding_fields env b)) (store (closed_fields b) w))) ->
  returns (s_close_binding env w) Q.
Proof.
  intros H. unfold s_close_binding. apply returns_deref. intros b Hb.
  specialize (H b Hb). rewrite <- (close_binding_fields_fst env b) in H.
  destruct (close_binding_fields env b). apply returns_done. exact H.
Qed.

Lemma close_binding_stays_closed env w :
  returns (s_close_binding env w) (stays_closed w).
Proof.
  apply s_close_binding_returns. intros b Hb _. split; [reflexivity|].
  eexists. split; [reflexivity|]. apply close_binding_fields_snd. reflexivity.
Qed.

(** A relation that composes lets a proof follow the calls one by one. *)
Lemma returns_then (R : world -> world -> Prop) m k w :
  (forall a b c, R a b -> R b c -> R a c) ->
  returns m (R w) ->
  (forall w1, returns (k w1) (R w1)) ->
  returns (bind m k) (R w).
Proof.
  intros Htrans Hm Hk. apply returns_bind.
  eapply returns_weaken; [exact Hm|]. intros w1 H1.
  eapply returns_weaken; [apply Hk|]. intros w2 H2.
  exact (Htrans _ _ _ H1 H2).
Qed.

Lemma finalize_stays_closed env w :
  returns (s_aws_event_stream_client_connection_extern_finalize env w) (stays_closed w).
Proof.
  unfold s_aws_event_stream_client_connection_extern_finalize.
  repeat step_returns.
  - intros Hc. split; [use_heap|]. exists [EvNativeRelease (Some c)]. split; reflexivity.
  - apply returns_then; [exact stays_closed_trans|apply close_binding_stays_closed|].
    intros w1. apply release_stays_closed.
  - apply stays_closed_same; reflexivity.
Qed.

Lemma setup_close_stays_closed env w :
  returns (setup_close env w) (stays_closed w).
Proof.
  unfold setup_close.
  apply returns_then; [exact stays_closed_trans|apply close_binding_stays_closed|].
  intros w1. repeat step_returns.
  - intros Hc. split; [exact Hc|]. eexists. split; reflexivity.
  - apply stays_closed_same; reflexivity.
Qed.

Lemma setup_done_stays_closed w :
  returns (setup_done w) (stays_closed w).
Proof.
  unfold setup_done. repeat step_returns.
  - apply stays_closed_same; reflexivity.
  - apply release_stays_closed.
Qed.

Lemma setup_stays_closed env context user_data w :
  returns (s_napi_on_event_stream_client_connection_setup env context user_data w)
          (stays_closed w).
Proof.
  unfold s_napi_on_event_stream_client_connection_setup.
  destruct context as [| |d]; try apply returns_undefined.
  step_returns.
  assert (Hstore : stays_closed w (store (set_connection (data_connection d) b) w)).
  { intros Hc. split; [use_heap|]. apply continues_refl. reflexivity. }
  apply returns_then; [exact stays_closed_trans| |intros; apply setup_done_stays_closed].
  destruct env as [e|].
  - destruct (negb (is_closed (set_connection (data_connection d) b))) eqn:Hneg.
    + (* the binding is open: nothing to show *)
      intros w' _ Hc. exfalso. simpl in Hneg. use_heap.
      rewrite Hc in Hneg. discriminate Hneg.
    + eapply returns_weaken; [apply setup_close_stays_closed|].
      intros w' H. exact (stays_closed_trans _ _ _ Hstore H).
  - eapply returns_weaken; [apply setup_close_stays_closed|].
    intros w' H. exact (stays_closed_trans _ _ _ Hstore H).
Qed.

Lemma shutdown_notify_stays_closed env d b w :
  heap w = Some b ->
  returns (shutdown_notify env d b w) (stays_closed w).
Proof.
  intros Hb. unfold shutdown_notify.
  destruct env as [e|]; [|apply returns_done, stays_closed_same; reflexivity].
  destruct (negb (is_closed b)) eqn:Hneg;
    [|apply returns_done, stays_closed_same; reflexivity].
  intros w' _ Hc. exfalso. use_heap. rewrite Hc in Hneg. discriminate Hneg.
Qed.

Lemma shutdown_stays_closed env context user_data w :
  returns (s_napi_event_stream_connection_on_connection_shutdown env context user_data w)
          (stays_closed w).
Proof.
  unfold s_napi_event_stream_connection_on_connection_shutdown.
  destruct context as [| |d]; try apply returns_undefined.
  repeat step_returns.
  apply returns_then;
    [exact stays_closed_trans|apply shutdown_notify_stays_closed; assumption|].
  intros w1.
  apply returns_then; [exact stays_closed_trans|apply close_binding_stays_closed|].
  intros w2. step_returns.
  eapply returns_weaken; [apply release_stays_closed|]. intros w' H.
  refine (stays_closed_trans _ _ _ _ H). intros Hc. split; [use_heap|].
  eexists. split; reflexivity.
Qed.

Lemma close_stays_closed env info w :
  returns (aws_napi_event_stream_client_connection_close env info w) (stays_closed w).
Proof.
  unfold aws_napi_event_stream_client_connection_close, as_binding_ptr.
  repeat (step_returns; simpl); try apply stays_closed_throw.
  destruct e; simpl; repeat step_returns; try apply stays_closed_throw.
  apply close_binding_stays_closed.
Qed.

Lemma connect_stays_closed env info r w :
  returns (aws_napi_event_stream_client_connection_connect env info r w) (stays_closed w).
Proof.
  unfold aws_napi_event_stream_client_connection_connect, as_binding_ptr.
  repeat (step_returns; simpl); try apply stays_closed_throw.
  destruct e; simpl; repeat step_returns; try apply stays_closed_throw.
  (* the binding is open: nothing to show *)
  intros w' _ Hc. exfalso. use_heap.
Qed.

Lemma native_setup_stays_closed conn code w :
  returns (s_aws_event_stream_rpc_client_on_connection_setup_fn conn code w) (stays_closed w).
Proof.
  unfold s_aws_event_stream_rpc_client_on_connection_setup_fn.
  repeat step_returns. intros Hc. split; [use_heap|].
  eexists. split; reflexivity.
Qed.

Lemma native_shutdown_stays_closed conn code w :
  returns (s_aws_event_stream_rpc_client_on_connection_shutdown_fn conn code w) (stays_closed w).
Proof.
  unfold s_aws_event_stream_rpc_client_on_connection_shutdown_fn.
  repeat step_returns. intros Hc. split; [use_heap|].
  eexists. split; reflexivity.
Qed.

Lemma step_stays_closed l w w' :
  step l w = Some (Done w') -> stays_closed w w'.
Proof.
  destruct l; simpl; intros H.
  - inversion H as [E]. exact (connect_stays_closed _ _ _ _ _ E).
  - inversion H as [E]. exact (close_stays_closed _ _ _ _ E).
  - inversion H as [E]. exact (finalize_stays_closed _ _ _ E).
  - destruct (Nat.ltb 0 (pending_setups w)); [|discriminate H].
    inversion H as [E]. exact (native_setup_stays_closed _ _ _ _ E).
  - destruct (awaiting_shutdown c w); [|discriminate H].
    inversion H as [E]. exact (native_shutdown_stays_closed _ _ _ _ E).
  - destruct (awaiting_shutdown c w); [|discriminate H].
    inversion H. subst. apply stays_closed_same; reflexivity.
  - unfold pop_setup in H. destruct (setup_queue w) as [|d q]; [discriminate H|].
    inversion H as [E]. apply setup_stays_closed in E.
    intros Hc. apply E. exact Hc.
  - unfold pop_shutdown in H. destruct (shutdown_queue w) as [|d q]; [discriminate H|].
    inversion H as [E]. apply shutdown_stays_closed in E.
    intros Hc. apply E. exact Hc.
Qed.

Lemma run_stays_closed ls w w' :
  run ls w = Some w' -> stays_closed w w'.
Proof.
  revert w. induction ls as [|l ls IH]; simpl; intros w H.
  - inversion H. subst. apply stays_closed_same; reflexivity.
  - destruct (step l w) as [[w1| |]|] eqn:Hs; try discriminate H.
    exact (stays_closed_trans _ _ _ (step_stays_closed _ _ _ Hs) (IH _ H)).
Qed.

(** C7.  The [closed] flag only ever goes from false to true: whatever the
    host, the collector, the native library and the dispatcher do, in any
    order, a binding that is closed is still closed afterwards, up to its
    release; and from the moment it is closed, no setup or shutdown
    delivery calls a host callback. *)
Theorem closed_is_monotonic (ls : list label) (w w' : world) (b : binding) :
  run ls w = Some w' ->
  heap w = Some b ->
  is_closed b = true ->
  (forall b', heap w' = Some b' -> is_closed b' = true)
  /\ count is_host_callback (trace w') = count is_host_callback (trace w).
Proof.
  intros Hrun Hb Hc.
  destruct (run_stays_closed _ _ _ Hrun) as [Hc' Ht].
  { unfold closed_or_gone. rewrite Hb. exact Hc. }
  split.
  - intros b' Hb'. unfold closed_or_gone in Hc'. rewrite Hb' in Hc'. exact Hc'.
  - apply (continues_count _ is_host_callback) in Ht; [exact Ht|].
    intros e He. unfold not_callback in He. destruct (is_host_callback e); [discriminate He|reflexivity].
Qed.

(** ** Steps that leave the native side alone *)

Lemma quiet_step_trans w1 w2 w3 :
  quiet_step w1 w2 -> quiet_step w2 w3 -> quiet_step w1 w3.
Proof.
  intros [E1 [S1 T1]] [E2 [S2 T2]]. split; [exact (continues_trans _ _ _ _ E1 E2)|].
  split; congruence.
Qed.

Lemma quiet_step_events es w w' :
  forallb calm es = true ->
  trace w' = trace w ++ es ->
  setup_queue w' = setup_queue w -> shutdown_queue w' = shutdown_queue w ->
  quiet_step w w'.
Proof. intros Hes Ht Hs Hq. split; [exists es; split; assumption|split; assumption]. Qed.

Lemma quiet_step_throw msg w : quiet_step w (throw msg w).
Proof. apply quiet_step_events with [EvThrow msg]; reflexivity. Qed.

Lemma quiet_step_refl w : quiet_step w w.
Proof. apply quiet_step_events with []; try reflexivity. rewrite app_nil_r. reflexivity. Qed.

Lemma on_zero_quiet w :
  returns (s_aws_event_stream_client_connection_binding_on_zero w) (quiet_step w).
Proof.
  unfold s_aws_event_stream_client_connection_binding_on_zero.
  repeat step_returns. eapply quiet_step_events; try reflexivity.
  unfold on_zero_events. simpl.
  rewrite !forallb_app, !forallb_clean_threadsafe_function; reflexivity.
Qed.

Lemma release_quiet p w :
  returns (s_aws_event_stream_client_connection_binding_release p w) (quiet_step w).
Proof.
  unfold s_aws_event_stream_client_connection_binding_release, aws_ref_count_release.
  repeat step_returns.
  - apply quiet_step_refl.
  - eapply returns_weaken; [apply on_zero_quiet|]. intros w' H.
    refine (quiet_step_trans _ _ _ _ H). apply quiet_step_events with [EvRefRelease]; reflexivity.
  - apply quiet_step_events with [EvRefRelease]; reflexivity.
Qed.

Lemma acquire_quiet p w :
  returns (s_aws_event_stream_client_connection_binding_acquire p w) (quiet_step w).
Proof.
  unfold s_aws_event_stream_client_connection_binding_acquire, aws_ref_count_acquire.
  repeat step_returns.
  - apply quiet_step_refl.
  - apply quiet_step_events with [EvRefAcquire]; reflexivity.
Qed.

Lemma close_binding_quiet env w :
  returns (s_close_binding env w) (quiet_step w).
Proof.
  apply s_close_binding_returns. intros b Hb.
  eapply quiet_step_events; try reflexivity.
  apply close_binding_fields_snd. reflexivity.
Qed.

Lemma finalize_quiet env w :
  returns (s_aws_event_stream_client_connection_extern_finalize env w) (quiet_step w).
Proof.
  unfold s_aws_event_stream_client_connection_extern_finalize.
  repeat step_returns.
  - apply quiet_step_events with [EvNativeRelease (Some c)]; reflexivity.
  - apply returns_then; [exact quiet_step_trans|apply close_binding_quiet|].
    intros w1. apply release_quiet.
  - apply quiet_step_refl.
Qed.

Lemma close_quiet env info w :
  returns (aws_napi_event_stream_client_connection_close env info w) (quiet_step w).
Proof.
  unfold aws_napi_event_stream_client_connection_close, as_binding_ptr.
  repeat (step_returns; simpl); try apply quiet_step_throw.
  destruct e; simpl; repeat step_returns; try apply quiet_step_throw.
  apply close_binding_quiet.
Qed.

Lemma rejected_connect_quiet env info r w :
  Z.eqb r 0 = false ->
  returns (aws_napi_event_stream_client_connection_connect env info r w) (quiet_step w).
Proof.
  intros Hr. unfold aws_napi_event_stream_client_connection_connect, as_binding_ptr.
  rewrite Hr.
  repeat (step_returns; simpl); try apply quiet_step_throw.
  destruct e; simpl; repeat step_returns; try apply quiet_step_throw.
  apply returns_bind.
  eapply returns_weaken; [apply (acquire_quiet TheBinding)|]. intros w1 H1.
  apply returns_bind.
  eapply returns_weaken; [apply (release_quiet TheBinding)|]. intros w2 H2.
  apply returns_done.
  refine (quiet_step_trans _ _ _ _ (quiet_step_trans _ _ _ H1 _)).
  - apply quiet_step_events with [EvCreateThreadsafeFunction (tsfn_name (setup_tsfn n0))];
      reflexivity.
  - refine (quiet_step_trans _ _ _ _ (quiet_step_trans _ _ _ H2 (quiet_step_throw _ _))).
    apply quiet_step_events with [EvNativeConnect (host b) (port b) (using_tls b) false];
      reflexivity.
Qed.

(** ** [connect], spelled out *)

Lemma connect_reaches_native env callback r w b :
  connectable env w b ->
  aws_napi_event_stream_client_connection_connect env [node_external; callback] r w =
  if Z.eqb r 0
  then Done (emits (connect_events b true) (store (connecting callback b) w))
  else Done (emits (connect_events b false ++ connect_failure_events)
                   (store (not_connecting callback b) w)).
Proof.
  intros (Hb & Hc & Hn & Hr & Hcb & Hts).
  unfold aws_napi_event_stream_client_connection_connect, deref.
  rewrite Hcb, Hb. simpl. rewrite Hc, Hn, Hts. simpl.
  unfold aws_ref_count_acquire, deref. simpl.
  destruct (ref_count b) as [|n] eqn:Hrc; [lia|].
  unfold connecting, not_connecting, connect_events, connect_failure_events.
  rewrite Hrc.
  destruct (Z.eqb r 0); simpl.
  - unfold emits, emit, store, set_heap. simpl. rewrite <- !app_assoc. reflexivity.
  - unfold aws_ref_count_release, deref. simpl.
    unfold throw, emits, emit, store, set_heap. simpl. rewrite <- !app_assoc. reflexivity.
Qed.

(** ** A quiescent native side stays quiescent *)

Lemma calm_not_native e : calm e = true -> is_native_activity e = false.
Proof. unfold calm. destruct (is_native_activity e); simpl; [discriminate|reflexivity]. Qed.

Lemma calm_not_callback e : calm e = true -> is_host_callback e = false.
Proof.
  unfold calm. destruct (is_host_callback e); [|reflexivity].
  rewrite orb_true_r. discriminate.
Qed.

Lemma quiet_step_count p w w' :
  (forall e, p e = true -> is_native_activity e = true) ->
  quiet_step w w' -> count p (trace w') = count p (trace w).
Proof.
  intros Hp [Hc _]. apply (continues_count _ p) in Hc; [exact Hc|].
  intros e He. apply calm_not_native in He.
  destruct (p e) eqn:Hpe; [|reflexivity]. rewrite (Hp e Hpe) in He. discriminate He.
Qed.

Lemma quiet_step_pending w w' :
  quiet_step w w' -> pending_setups w' = pending_setups w.
Proof.
  intros H. unfold pending_setups.
  assert (Ha : count is_accepted_connect (trace w') = count is_accepted_connect (trace w)).
  { apply quiet_step_count; [|exact H]. intros [] He; try discriminate He.
    destruct ok; [reflexivity|discriminate He]. }
  assert (Hs : count is_queue_setup (trace w') = count is_queue_setup (trace w)).
  { apply quiet_step_count; [|exact H]. intros [] He; try discriminate He; reflexivity. }
  rewrite Ha, Hs. reflexivity.
Qed.

Lemma quiet_step_awaiting c w w' :
  quiet_step w w' -> awaiting_shutdown c w' = awaiting_shutdown c w.
Proof.
  intros H. unfold awaiting_shutdown.
  assert (Hs : count (shut_down c) (trace w') = count (shut_down c) (trace w)).
  { apply quiet_step_count; [|exact H]. intros [] He; try discriminate He; reflexivity. }
  assert (Hh : count (handed_out c) (trace w') = count (handed_out c) (trace w)).
  { apply quiet_step_count; [|exact H]. intros [] He; try discriminate He; reflexivity. }
  rewrite Hs, Hh. reflexivity.
Qed.

Lemma quiet_step_quiescent w w' :
  quiet_step w w' -> quiescent w -> quiescent w'.
Proof.
  intros H (Hp & Ha & Hs & Hq).
  split; [rewrite (quiet_step_pending _ _ H); exact Hp|].
  split; [intros c; rewrite (quiet_step_awaiting c _ _ H); apply Ha|].
  destruct H as [_ [Hs' Hq']]. split; congruence.
Qed.

Lemma quiescent_no_delivery l w :
  quiescent w -> is_delivery l = true -> step l w = None.
Proof.
  intros (Hp & Ha & Hs & Hq) Hl. destruct l; try discriminate Hl; simpl.
  - rewrite Hp. reflexivity.
  - rewrite Ha. reflexivity.
  - rewrite Ha. reflexivity.
  - unfold pop_setup. rewrite Hs. reflexivity.
  - unfold pop_shutdown. rewrite Hq. reflexivity.
Qed.

Lemma host_step_quiet l w w' :
  is_accepted l = false -> is_delivery l = false ->
  step l w = Some (Done w') -> quiet_step w w'.
Proof.
  intros Hacc Hdel H. destruct l; try discriminate Hdel; simpl in *.
  - inversion H as [E]. exact (rejected_connect_quiet _ _ _ _ Hacc _ E).
  - inversion H as [E]. exact (close_quiet _ _ _ _ E).
  - inversion H as [E]. exact (finalize_quiet _ _ _ E).
Qed.

Lemma quiescent_run ls w w' :
  quiescent w ->
  forallb (fun l => negb (is_accepted l)) ls = true ->
  run ls w = Some w' ->
  forallb (fun l => negb (is_delivery l)) ls = true /\ quiet_step w w'.
Proof.
  revert w. induction ls as [|l ls IH]; simpl; intros w Hq Hacc Hrun.
  - inversion Hrun. subst. split; [reflexivity|apply quiet_step_refl].
  - apply andb_prop in Hacc. destruct Hacc as [Hl Hls].
    apply negb_true_iff in Hl.
    destruct (is_delivery l) eqn:Hd.
    + rewrite (quiescent_no_delivery l w Hq Hd) in Hrun. discriminate Hrun.
    + destruct (step l w) as [[w1| |]|] eqn:Hs; try discriminate Hrun.
      pose proof (host_step_quiet l w w1 Hl Hd Hs) as Hq1.
      destruct (IH w1 (quiet_step_quiescent _ _ Hq1 Hq) Hls Hrun) as [Hnd Hq2].
      split; [exact Hnd|exact (quiet_step_trans _ _ _ Hq1 Hq2)].
Qed.

(** C4.  When the native connect call fails synchronously, [connect] takes
    the reference, gives it back and throws, in this order; the reference
    count is what it was before the call; nothing is queued and no setup
    callback is owed.  If nothing native was outstanding before the call,
    then as long as no later connect is accepted, no native callback and no
    delivery can happen, and the host callbacks stay uncalled. *)
Theorem synchronous_connect_failure
  (env : napi_env) (callback : napi_value) (r : Z) (w : world) (b : binding) :
  connectable env w b ->
  r <> 0%Z ->
  exists w',
    aws_napi_event_stream_client_connection_connect env [node_external; callback] r w = Done w'
    /\ trace w' = trace w ++ connect_events b false ++ connect_failure_events
    /\ references w' = references w
    /\ setup_queue w' = setup_queue w /\ shutdown_queue w' = shutdown_queue w
    /\ pending_setups w' = pending_setups w
    /\ (quiescent w ->
        forall ls w'',
          forallb (fun l => negb (is_accepted l)) ls = true ->
          run ls w' = Some w'' ->
          forallb (fun l => negb (is_delivery l)) ls = true
          /\ count is_host_callback (trace w'') = count is_host_callback (trace w)).
Proof.
  intros Hpre Hr.
  assert (Hr0 : Z.eqb r 0 = false) by (apply Z.eqb_neq; exact Hr).
  pose proof (connect_reaches_native env callback r w b Hpre) as E. rewrite Hr0 in E.
  eexists. split; [exact E|].
  assert (Hquiet : quiet_step w
            (emits (connect_events b false ++ connect_failure_events)
                   (store (not_connecting callback b) w))).
  { exact (rejected_connect_quiet _ _ _ _ Hr0 _ E). }
  destruct Hpre as (Hb & _).
  split; [reflexivity|].
  split; [unfold references; simpl; rewrite Hb; reflexivity|].
  split; [reflexivity|]. split; [reflexivity|].
  split; [exact (quiet_step_pending _ _ Hquiet)|].
  intros Hq ls w'' Hacc Hrun.
  destruct (quiescent_run ls _ _ (quiet_step_quiescent _ _ Hquiet Hq) Hacc Hrun) as [Hnd Hq2].
  split; [exact Hnd|].
  destruct (quiet_step_trans _ _ _ Hquiet Hq2) as [Hc _].
  apply (continues_count _ is_host_callback) in Hc; [exact Hc|].
  exact calm_not_callback.
Qed.

(** ** [close] *)

Lemma emits_nil w : emits [] w = w.
Proof. destruct w. unfold emits. simpl. rewrite app_nil_r. reflexivity. Qed.

Lemma store_heap w b : heap w = Some b -> store b w = w.
Proof. destruct w. simpl. intros ->. reflexivity. Qed.

Lemma s_close_binding_live env w b :
  heap w = Some b ->
  s_close_binding env w =
  Done (emits (snd (close_binding_fields env b)) (store (closed_fields b) w)).
Proof.
  intros Hb. unfold s_close_binding, deref. rewrite Hb.
  rewrite <- (close_binding_fields_fst env b).
  destruct (close_binding_fields env b). reflexivity.
Qed.

Lemma close_binding_fields_closed env b :
  close_binding_fields env (closed_fields b) = (closed_fields b, []).
Proof. destruct env; reflexivity. Qed.

(** Closing a binding that was just closed changes nothing. *)
Lemma s_close_binding_again env w w' :
  s_close_binding env w = Done w' -> s_close_binding env w' = Done w'.
Proof.
  intros H. destruct (heap w) as [b|] eqn:Hb.
  - rewrite (s_close_binding_live env w b Hb) in H. inversion H. subst w'. clear H.
    rewrite (s_close_binding_live env _ (closed_fields b)) by reflexivity.
    rewrite close_binding_fields_closed. simpl.
    rewrite emits_nil. rewrite store_heap; reflexivity.
  - unfold s_close_binding, deref in H. rewrite Hb in H. discriminate H.
Qed.

Lemma s_close_binding_times_once n env w :
  s_close_binding_times (S n) env w = s_close_binding env w.
Proof.
  revert w. induction n as [|n IH]; intros w.
  - simpl. destruct (s_close_binding env w); reflexivity.
  - change (s_close_binding_times (S (S n)) env w)
      with (w' <- s_close_binding env w ;; s_close_binding_times (S n) env w').
    destruct (s_close_binding env w) as [w'| |] eqn:H; simpl; try reflexivity.
    rewrite <- (s_close_binding_again _ _ _ H).
    change (s_close_binding_times (S n) env w' = s_close_binding env w').
    apply IH.
Qed.

Lemma close_valid_call env w :
  env_get_cb_info_ok env = true ->
  aws_napi_event_stream_client_connection_close env [node_external] w =
  s_close_binding (Some env) w.
Proof.
  intros Hok. unfold aws_napi_event_stream_client_connection_close.
  rewrite Hok. reflexivity.
Qed.

Lemma close_times_valid n env w :
  env_get_cb_info_ok env = true ->
  close_times n env [node_external] w = s_close_binding_times n (Some env) w.
Proof.
  intros Hok. revert w. induction n as [|n IH]; intros w; simpl.
  - reflexivity.
  - rewrite close_valid_call by assumption.
    destruct (s_close_binding (Some env) w); simpl; auto.
Qed.

(** C9.  Calling [close] on the handle n > 0 times in a row ends exactly as
    calling it once does: the same binding, the same queues, the same
    effects on the host; whatever state the binding is in, the state the
    collector leaves behind included. *)
Theorem close_idempotent (n : nat) (env : napi_env) (w : world) :
  0 < n ->
  env_get_cb_info_ok env = true ->
  close_times n env [node_external] w =
  aws_napi_event_stream_client_connection_close env [node_external] w.
Proof.
  intros Hn Hok. destruct n as [|n]; [lia|].
  rewrite close_times_valid, close_valid_call by assumption.
  apply s_close_binding_times_once.
Qed.

Lemma closed_fields_same_outside b : same_outside_close b (closed_fields b).
Proof. repeat split. Qed.

Lemma same_outside_close_refl b : same_outside_close b b.
Proof. repeat split. Qed.

(** C10.  The host-surface [close] writes the closed flag and the two host
    reference fields of the binding and nothing else: the connection, the
    three thread-safe functions, the cached configuration and the reference
    count are the ones from before the call, and so are the dispatcher
    queues.  Called on the handle of a live binding, it returns. *)
Theorem close_frame (env : napi_env) (info : list napi_value) (w : world) (b : binding) :
  heap w = Some b ->
  (forall w', aws_napi_event_stream_client_connection_close env info w = Done w' ->
              close_leaves b w w')
  /\ (env_get_cb_info_ok env = true ->
      exists w', aws_napi_event_stream_client_connection_close env [node_external] w = Done w'
                 /\ heap w' = Some (closed_fields b)).
Proof.
  intros Hb. split.
  - assert (Hthrow : forall msg, close_leaves b w (throw msg w)).
    { intros msg. exists b. repeat split; auto. }
    change (returns (aws_napi_event_stream_client_connection_close env info w)
                    (close_leaves b w)).
    unfold aws_napi_event_stream_client_connection_close, as_binding_ptr.
    repeat (step_returns; simpl); try apply Hthrow.
    destruct e; simpl; repeat step_returns; try apply Hthrow.
    apply s_close_binding_returns. intros b0 Hb0.
    rewrite Hb in Hb0. inversion Hb0. subst b0.
    exists (closed_fields b). repeat split; auto.
  - intros Hok. rewrite close_valid_call by assumption.
    rewrite (s_close_binding_live _ w b Hb). eexists. split; reflexivity.
Qed.

(** ** Counting events and references *)

Lemma count_one p e : count p [e] = if p e then 1 else 0.
Proof. unfold count. simpl. destruct (p e); reflexivity. Qed.

Lemma count_snoc p es e : count p (es ++ [e]) = count p es + (if p e then 1 else 0).
Proof. rewrite count_app. unfold count. simpl. destruct (p e); reflexivity. Qed.

Lemma count_deletes p env b :
  (forall x, p (EvDeleteReference x) = false) ->
  count p (snd (close_binding_fields env b)) = 0.
Proof.
  intros H. apply count_none. apply close_binding_fields_snd.
  intros x. rewrite H. reflexivity.
Qed.

Lemma count_on_zero p b :
  p EvStringDestroy = false -> p EvTlsCleanUp = false -> p EvMemRelease = false ->
  (forall x, p (EvReleaseThreadsafeFunction x) = false) ->
  count p (on_zero_events b) = 0.
Proof.
  intros H1 H2 H3 H4. apply count_none. unfold on_zero_events. simpl.
  rewrite H1, H2. simpl.
  rewrite !forallb_app, !forallb_clean_threadsafe_function; simpl.
  - rewrite H3. reflexivity.
  - intros x. rewrite H4. reflexivity.
  - intros x. rewrite H4. reflexivity.
  - intros x. rewrite H4. reflexivity.
Qed.

Lemma count_mem_release_on_zero b : count is_mem_release (on_zero_events b) = 1.
Proof.
  unfold on_zero_events. rewrite !count_app.
  assert (Hz : forall f, count is_mem_release (clean_threadsafe_function f) = 0).
  { intros [f|]; reflexivity. }
  rewrite !Hz. reflexivity.
Qed.

Lemma holding_live n c a r w :
  holding (S n) c a r w ->
  exists b, heap w = Some b /\ ref_count b = S n /\ connection b = c.
Proof.
  intros (_ & _ & H). destruct (heap w) as [b|]; [|discriminate H].
  exists b. destruct H as (Hn & Hc & _). repeat split; assumption.
Qed.

Lemma holding_intro b n c a r w :
  heap w = Some b -> ref_count b = S n -> connection b = c ->
  count is_ref_acquire (trace w) = a -> count is_ref_release (trace w) = r ->
  holding (S n) c a r w.
Proof.
  intros Hb Hn Hc Ha Hr. unfold holding. rewrite Hb.
  repeat split; try assumption. lia.
Qed.

Lemma holding_counts n c a r w :
  holding n c a r w ->
  count is_ref_acquire (trace w) = a /\ count is_ref_release (trace w) = r.
Proof. intros (Ha & Hr & _). split; assumption. Qed.

(** Giving back one of [S n] references: the last one releases the
    binding. *)
Lemma release_holding n c a r w :
  holding (S n) c a r w ->
  exists w', s_aws_event_stream_client_connection_binding_release TheBinding w = Done w'
             /\ holding n c a (S r) w'
             /\ finalizer_runs w' = finalizer_runs w + (if Nat.eqb n 0 then 1 else 0)
             /\ continues is_teardown w w'.
Proof.
  intros H. destruct (holding_live _ _ _ _ _ H) as (b & Hb & Hn & Hc).
  destruct (holding_counts _ _ _ _ _ H) as [Ha Hr].
  unfold s_aws_event_stream_client_connection_binding_release, aws_ref_count_release, deref.
  rewrite Hb, Hn. destruct n as [|n].
  - unfold s_aws_event_stream_client_connection_binding_on_zero, deref. simpl.
    eexists. split; [reflexivity|]. unfold holding, finalizer_runs. simpl.
    rewrite !count_app, count_mem_release_on_zero.
    rewrite !count_on_zero by reflexivity.
    rewrite !count_one. simpl. repeat split; try lia.
    exists (EvRefRelease :: on_zero_events b). split.
    + simpl. rewrite <- app_assoc. reflexivity.
    + unfold on_zero_events. simpl.
      rewrite !forallb_app, !forallb_clean_threadsafe_function; reflexivity.
  - eexists. split; [reflexivity|]. split; [|split].
    + apply holding_intro with (set_ref_count (S n) b); simpl; auto;
        rewrite count_snoc; simpl; lia.
    + unfold finalizer_runs. simpl. rewrite count_snoc. simpl. lia.
    + exists [EvRefRelease]. split; reflexivity.
Qed.

(** ** The preconditions of [connect] *)

(** C6, as the code has it.  [connect] on a closed binding throws
    "connection already closed" to the caller and changes nothing else,
    whether or not the binding holds a connection; on a binding that is not
    closed and holds a connection it aborts the process. *)
Theorem connect_preconditions
  (env : napi_env) (callback : napi_value) (r : Z) (w : world) (b : binding) :
  heap w = Some b ->
  env_get_cb_info_ok env = true ->
  (is_closed b = true ->
   aws_napi_event_stream_client_connection_connect env [node_external; callback] r w =
   Done (throw "aws_napi_event_stream_client_connection_connect - connection already closed" w))
  /\ (is_closed b = false -> connection b <> None ->
      aws_napi_event_stream_client_connection_connect env [node_external; callback] r w =
      Fatal "binding->connection == NULL").
Proof.
  intros Hb Hok. unfold aws_napi_event_stream_client_connection_connect, deref.
  rewrite Hok, Hb. simpl. split.
  - intros Hc. rewrite Hc. reflexivity.
  - intros Hc Hn. rewrite Hc. destruct (connection b); [reflexivity|congruence].
Qed.

(** The earlier revision asserts both preconditions. *)
Lemma earlier_connect_preconditions
  (env : napi_env) (callback : napi_value) (r : Z) (w : world) (b : binding) :
  heap w = Some b ->
  env_get_cb_info_ok env = true ->
  connection b <> None \/ is_closed b = true ->
  exists what,
    Earlier.aws_napi_event_stream_client_connection_connect
      env [node_external; callback] r w = Fatal what.
Proof.
  intros Hb Hok H. unfold Earlier.aws_napi_event_stream_client_connection_connect, deref.
  rewrite Hok, Hb. simpl. destruct (connection b) as [x|].
  - eexists. reflexivity.
  - destruct H as [H|H]; [congruence|]. rewrite H. eexists. reflexivity.
Qed.

(** ** Counting references *)

Lemma ref_balance_prefix ops1 ops2 n m :
  ref_balance n (ops1 ++ ops2) = Some m ->
  ops2 <> [] ->
  exists k, ref_balance n ops1 = Some (S k).
Proof.
  revert n. induction ops1 as [|o ops1 IH]; simpl; intros n H Hne.
  - destruct n as [|k]; [|exists k; reflexivity].
    destruct ops2; [congruence|discriminate H].
  - destruct n as [|k]; [discriminate H|].
    destruct o; apply IH; assumption.
Qed.

Lemma ref_run_balance ops : forall n c a r w m,
  holding (S n) c a r w ->
  ref_balance (S n) ops = Some m ->
  exists w' a' r',
    ref_run ops w = Done w'
    /\ holding m c a' r' w'
    /\ finalizer_runs w' = finalizer_runs w + (if Nat.eqb m 0 then 1 else 0).
Proof.
  induction ops as [|o ops IH]; simpl; intros n c a r w m H Hbal.
  - inversion Hbal. subst m. exists w, a, r. simpl.
    split; [reflexivity|]. split; [exact H|lia].
  - destruct o.
    + (* acquire *)
      destruct (holding_live _ _ _ _ _ H) as (b & Hb & Hn & Hc).
      destruct (holding_counts _ _ _ _ _ H) as [Ha Hr].
      unfold ref_step, s_aws_event_stream_client_connection_binding_acquire,
        aws_ref_count_acquire, deref.
      rewrite Hb, Hn. simpl.
      set (w1 := emit EvRefAcquire (store (set_ref_count (S (S n)) b) w)).
      assert (H1 : holding (S (S n)) c (S a) r w1).
      { apply holding_intro with (set_ref_count (S (S n)) b); simpl; auto;
          rewrite count_snoc; simpl; lia. }
      destruct (IH _ _ _ _ _ _ H1 Hbal) as (w' & a' & r' & E & H' & Hf).
      exists w', a', r'. split; [exact E|]. split; [exact H'|].
      rewrite Hf. unfold finalizer_runs, w1. simpl. rewrite count_snoc. simpl. lia.
    + (* release *)
      destruct (release_holding _ _ _ _ _ H) as (w1 & E1 & H1 & Hf1 & _).
      unfold ref_step. rewrite E1. simpl. destruct n as [|n].
      * (* the last reference *)
        destruct ops as [|o' ops']; [|discriminate Hbal].
        inversion Hbal. subst m. exists w1, a, (S r). simpl.
        split; [reflexivity|]. split; [exact H1|]. exact Hf1.
      * destruct (IH _ _ _ _ _ _ H1 Hbal) as (w' & a' & r' & E & H' & Hf).
        exists w', a', r'. split; [exact E|]. split; [exact H'|].
        rewrite Hf, Hf1. simpl. lia.
Qed.

(** Whatever the sequence of calls, if it returns then the finalizer has run
    at most once, and it has run exactly when the binding is released. *)
Lemma ref_run_any ops : forall n c a r w w',
  holding (S n) c a r w ->
  ref_run ops w = Done w' ->
  (heap w' = None /\ finalizer_runs w' = S (finalizer_runs w))
  \/ ((exists b', heap w' = Some b' /\ 0 < ref_count b')
      /\ finalizer_runs w' = finalizer_runs w).
Proof.
  induction ops as [|o ops IH]; simpl; intros n c a r w w' H E.
  - inversion E. subst w'. right.
    destruct (holding_live _ _ _ _ _ H) as (b & Hb & Hn & _).
    split; [exists b; split; [exact Hb|lia]|reflexivity].
  - destruct o.
    + (* acquire *)
      destruct (holding_live _ _ _ _ _ H) as (b & Hb & Hn & Hc).
      destruct (holding_counts _ _ _ _ _ H) as [Ha Hr].
      revert E.
      unfold ref_step, s_aws_event_stream_client_connection_binding_acquire,
        aws_ref_count_acquire, deref.
      rewrite Hb, Hn. simpl.
      set (w1 := emit EvRefAcquire (store (set_ref_count (S (S n)) b) w)).
      intros E.
      assert (H1 : holding (S (S n)) c (S a) r w1).
      { apply holding_intro with (set_ref_count (S (S n)) b); simpl; auto;
          rewrite count_snoc; simpl; lia. }
      assert (Hf1 : finalizer_runs w1 = finalizer_runs w).
      { unfold finalizer_runs, w1. simpl. rewrite count_snoc. simpl. lia. }
      rewrite <- Hf1. exact (IH _ _ _ _ _ _ H1 E).
    + (* release *)
      destruct (release_holding _ _ _ _ _ H) as (w1 & E1 & H1 & Hf1 & _).
      unfold ref_step in E. rewrite E1 in E. simpl in E. destruct n as [|n].
      * (* the last reference: nothing can follow *)
        destruct H1 as (_ & _ & H1).
        destruct (heap w1) as [b1|] eqn:Hb1; [destruct H1 as (_ & _ & H1); lia|].
        destruct ops as [|o' ops']; simpl in E.
        -- inversion E. subst w'. left. split; [exact Hb1|]. simpl in Hf1. lia.
        -- exfalso. revert E.
           unfold ref_step, s_aws_event_stream_client_connection_binding_acquire,
             s_aws_event_stream_client_connection_binding_release,
             aws_ref_count_acquire, aws_ref_count_release, deref.
           rewrite Hb1. destruct o'; discriminate.
      * simpl in Hf1. rewrite Nat.add_0_r in Hf1. rewrite <- Hf1.
        exact (IH _ _ _ _ _ _ H1 E).
Qed.

(** C8.  From the one reference of construction, a sequence of acquire and
    release calls that gives back every reference ends with the binding
    released and the zero-count finalizer run exactly once; before the last
    call of the sequence the binding is live, holds at least one reference,
    and the finalizer has not run.  No sequence of calls that returns,
    balanced or not, runs the finalizer twice, or runs it while the binding
    still holds a reference. *)
Theorem finalizer_runs_once (ops : list ref_op) (w : world) (b : binding) :
  heap w = Some b ->
  ref_count b = 1 ->
  balanced ops ->
  (exists w',
     ref_run ops w = Done w'
     /\ heap w' = None
     /\ finalizer_runs w' = S (finalizer_runs w))
  /\ (forall ops1 ops2,
        ops = ops1 ++ ops2 -> ops2 <> [] ->
        exists w1 b1,
          ref_run ops1 w = Done w1
          /\ heap w1 = Some b1
          /\ 0 < ref_count b1
          /\ finalizer_runs w1 = finalizer_runs w)
  /\ (forall ops' w',
        ref_run ops' w = Done w' ->
        (heap w' = None /\ finalizer_runs w' = S (finalizer_runs w))
        \/ ((exists b', heap w' = Some b' /\ 0 < ref_count b')
            /\ finalizer_runs w' = finalizer_runs w)).
Proof.
  intros Hb Hn Hbal. unfold balanced in Hbal.
  assert (H : holding 1 (connection b)
                (count is_ref_acquire (trace w)) (count is_ref_release (trace w)) w).
  { apply holding_intro with b; auto. }
  split; [|split].
  - destruct (ref_run_balance ops _ _ _ _ _ _ H Hbal) as (w' & a' & r' & E & H' & Hf).
    exists w'. split; [exact E|]. simpl in Hf. split; [|lia].
    destruct H' as (_ & _ & H'). destruct (heap w'); [|reflexivity].
    destruct H' as (_ & _ & H'). lia.
  - intros ops1 ops2 Hops Hne. subst ops.
    destruct (ref_balance_prefix ops1 ops2 1 0 Hbal Hne) as (k & Hk).
    destruct (ref_run_balance ops1 _ _ _ _ _ _ H Hk) as (w1 & a' & r' & E & H' & Hf).
    destruct (holding_live _ _ _ _ _ H') as (b1 & Hb1 & Hn1 & _).
    exists w1, b1. split; [exact E|]. split; [exact Hb1|]. split; [lia|].
    simpl in Hf. lia.
  - intros ops' w' E. exact (ref_run_any ops' _ _ _ _ _ _ H E).
Qed.

(** ** Construction *)

(** The configuration reader writes the host and the port, nothing else. *)
Lemma s_init_pristine env options b :
  pristine b ->
  pristine (fst (s_init_event_stream_connection_configuration_from_js_connection_configuration
                   env options b)).
Proof.
  intros Hp.
  unfold s_init_event_stream_connection_configuration_from_js_connection_configuration.
  destruct (aws_napi_get_named_property options AWS_EVENT_STREAM_PROPERTY_NAME_HOST napi_string)
    as [[| |] [v|]]; try exact Hp.
  destruct (host (set_host (aws_string_new_from_napi env v) b)); [|exact Hp].
  destruct (aws_napi_get_named_property_as_uint16 options AWS_EVENT_STREAM_PROPERTY_NAME_PORT)
    as [[| |] [p|]]; exact Hp.
Qed.

Lemma valid_configuration_accepted env options b :
  valid_configuration env options ->
  snd (s_init_event_stream_connection_configuration_from_js_connection_configuration
         env options b) = None.
Proof.
  intros (ps & s & z & -> & Hh & Hs & Hp & Hz).
  unfold s_init_event_stream_connection_configuration_from_js_connection_configuration,
    aws_napi_get_named_property_as_uint16, aws_napi_get_named_property.
  rewrite Hh, Hp. simpl. rewrite Hs. simpl.
  destruct Hz as [Hz0 Hz1].
  apply Z.leb_le in Hz0. apply Z.leb_le in Hz1. rewrite Hz0, Hz1. reflexivity.
Qed.

Lemma invalid_configuration_rejected env options b :
  ~ valid_configuration env options ->
  snd (s_init_event_stream_connection_configuration_from_js_connection_configuration
         env options b) = Some AWS_ERROR_INVALID_ARGUMENT.
Proof.
  intros Hbad.
  destruct (snd (s_init_event_stream_connection_configuration_from_js_connection_configuration
                   env options b)) as [[]|] eqn:E; [reflexivity|].
  exfalso. apply Hbad. revert E.
  unfold s_init_event_stream_connection_configuration_from_js_connection_configuration,
    aws_napi_get_named_property_as_uint16, aws_napi_get_named_property.
  destruct options as [| | | | |ps|]; try discriminate.
  destruct (get_property AWS_EVENT_STREAM_PROPERTY_NAME_HOST ps) as [vh|] eqn:Hh;
    [|discriminate].
  destruct vh as [| |s| | | |]; try discriminate. simpl.
  destruct (env_string_new_ok env) eqn:Hs; [|discriminate]. simpl.
  destruct (get_property AWS_EVENT_STREAM_PROPERTY_NAME_PORT ps) as [vp|] eqn:Hp;
    [|discriminate].
  destruct vp as [| | |z| | |]; try discriminate. simpl.
  destruct (1 <=? z)%Z eqn:Hz0; [|discriminate].
  destruct (z <=? UINT16_MAX)%Z eqn:Hz1; [|discriminate].
  intros _. exists ps, s, z.
  apply Z.leb_le in Hz0. apply Z.leb_le in Hz1. repeat split; assumption.
Qed.

(** The finalizer of the external on a binding nothing has happened to:
    the binding is closed, its one reference given back, and it is
    released. *)
Lemma finalize_pristine env w b :
  heap w = Some b ->
  pristine b ->
  exists w',
    s_aws_event_stream_client_connection_extern_finalize env w = Done w'
    /\ heap w' = None
    /\ finalizer_runs w' = S (finalizer_runs w)
    /\ trace w' = trace w ++ snd (close_binding_fields env b)
                  ++ EvRefRelease :: on_zero_events (closed_fields b).
Proof.
  intros Hb (Hn & Hc & Hcl).
  unfold s_aws_event_stream_client_connection_extern_finalize, deref.
  rewrite Hb, Hc, Hcl. simpl.
  rewrite (s_close_binding_live env w b Hb). simpl.
  unfold aws_ref_count_release, deref. simpl. rewrite Hn. simpl.
  eexists. split; [reflexivity|]. split; [reflexivity|]. split.
  - unfold finalizer_runs. simpl.
    rewrite !count_app, count_deletes, count_one, count_mem_release_on_zero by reflexivity.
    simpl. lia.
  - simpl. rewrite <- !app_assoc. reflexivity.
Qed.

Lemma and_then_pristine s k :
  stage_pristine s ->
  (forall b, pristine b -> stage_pristine (k b)) ->
  stage_pristine (and_then s k).
Proof.
  intros Hs Hk. destruct s as [b es|b es msg|what]; simpl; auto.
  specialize (Hk b Hs). destruct (k b); exact Hk.
Qed.

Lemma stages_pristine env c o s m so t :
  stage_pristine
    (and_then (new_arg_connection env c fresh_binding) (fun b1 =>
     and_then (new_arg_options env o b1) (fun b2 =>
     and_then (new_arg_shutdown env s b2) (fun b3 =>
     and_then (new_arg_message env m b3) (fun b4 =>
     and_then (new_arg_socket_options so b4) (fun b5 =>
     and_then (new_arg_tls t b5) (fun b6 =>
     new_external_ref env b6))))))).
Proof.
  assert (H0 : pristine fresh_binding) by (repeat split).
  apply and_then_pristine.
  { unfold new_arg_connection.
    destruct (aws_napi_is_null_or_undefined c); [exact H0|].
    destruct (env_create_reference env c); exact H0. }
  intros b1 H1. apply and_then_pristine.
  { unfold new_arg_options.
    destruct (aws_napi_is_null_or_undefined o); [exact H1|].
    pose proof (s_init_pristine env o b1 H1) as Hi.
    destruct (s_init_event_stream_connection_configuration_from_js_connection_configuration
                env o b1) as [b' [e|]]; exact Hi. }
  intros b2 H2. apply and_then_pristine.
  { unfold new_arg_shutdown.
    destruct (aws_napi_is_null_or_undefined s); [exact H2|].
    destruct (env_create_threadsafe_function_ok env); exact H2. }
  intros b3 H3. apply and_then_pristine.
  { unfold new_arg_message.
    destruct (aws_napi_is_null_or_undefined m); [exact H3|].
    destruct (env_create_threadsafe_function_ok env); exact H3. }
  intros b4 H4. apply and_then_pristine.
  { unfold new_arg_socket_options.
    destruct (aws_napi_is_null_or_undefined so); [exact H4|].
    destruct (napi_get_value_external so) as [[| | |]|]; simpl; auto. }
  intros b5 H5. apply and_then_pristine.
  { unfold new_arg_tls.
    destruct (aws_napi_is_null_or_undefined t); [exact H5|].
    destruct (napi_get_value_external t) as [[| | |]|]; simpl; auto. }
  intros b6 H6. unfold new_external_ref.
  destruct (env_create_reference env node_external); exact H6.
Qed.

(** Whatever [create] returns, the binding it leaves allocated, if any, is
    one nothing has happened to. *)
Lemma create_leaves_pristine env info v w' :
  aws_napi_event_stream_client_connection_new env info empty_world = Done (v, w') ->
  heap w' = None \/ exists b, heap w' = Some b /\ pristine b.
Proof.
  unfold aws_napi_event_stream_client_connection_new.
  destruct (negb (env_get_cb_info_ok env)).
  { intros E. inversion E. left. reflexivity. }
  destruct info as [|c [|o [|s [|m [|so [|t [|]]]]]]];
    try (intros E; inversion E; left; reflexivity).
  destruct (negb (env_create_external_ok env)).
  { intros E. inversion E. left. reflexivity. }
  pose proof (stages_pristine env c o s m so t) as Hs.
  match goal with
  | |- match ?st with _ => _ end = _ -> _ => destruct st as [b es|b es msg|what]
  end; intros E; inversion E; right; exists b; split; try reflexivity; exact Hs.
Qed.

Lemma s_init_frame {A : Type} (f : binding -> A) env options b :
  (forall h b', f (set_host h b') = f b') ->
  (forall p b', f (set_port p b') = f b') ->
  f (fst (s_init_event_stream_connection_configuration_from_js_connection_configuration
            env options b)) = f b.
Proof.
  intros Hh Hp.
  unfold s_init_event_stream_connection_configuration_from_js_connection_configuration.
  destruct (aws_napi_get_named_property options AWS_EVENT_STREAM_PROPERTY_NAME_HOST napi_string)
    as [[| |] [v|]]; try reflexivity.
  destruct (host (set_host (aws_string_new_from_napi env v) b)); [|apply Hh].
  destruct (aws_napi_get_named_property_as_uint16 options AWS_EVENT_STREAM_PROPERTY_NAME_PORT)
    as [[| |] [p|]]; simpl; try apply Hh.
  rewrite Hp. apply Hh.
Qed.

(** Every failed [create] leaves no binding behind once the external it
    made is collected. *)
Lemma failed_create_leaves_no_binding env info w' env' :
  aws_napi_event_stream_client_connection_new env info empty_world = Done (None, w') ->
  heap w' = None
  \/ exists w'',
       s_aws_event_stream_client_connection_extern_finalize env' w' = Done w''
       /\ heap w'' = None
       /\ finalizer_runs w'' = S (finalizer_runs w').
Proof.
  intros E. destruct (create_leaves_pristine env info None w' E) as [H|(b & Hb & Hp)].
  - left. exact H.
  - right. destruct (finalize_pristine env' w' b Hb Hp) as (w'' & Ef & Hh & Hf & _).
    exists w''. repeat split; assumption.
Qed.

(** C5, as the code has it.  [create] throws, and returns no handle, when
    the options have no string under "hostName" that can be copied or no
    number from 1 to 65535 under "port"; the error raised is the invalid
    argument error.  The call has allocated the binding, made the external
    and taken a reference to the host proxy by then: the binding stays
    allocated, with its one reference, until the external is collected; the
    finalizer then deletes the host reference, gives the reference back and
    releases the binding, once. *)
Theorem create_rejects_invalid_configuration
  (env : napi_env) (c o s m so t : napi_value) (r : napi_ref) :
  env_get_cb_info_ok env = true ->
  env_create_external_ok env = true ->
  aws_napi_is_null_or_undefined c = false ->
  env_create_reference env c = Some r ->
  aws_napi_is_null_or_undefined o = false ->
  ~ valid_configuration env o ->
  exists w' b,
    aws_napi_event_stream_client_connection_new env [c; o; s; m; so; t] empty_world
    = Done (None, w')
    /\ snd (s_init_event_stream_connection_configuration_from_js_connection_configuration
              env o (set_connection_ref (Some r) fresh_binding))
       = Some AWS_ERROR_INVALID_ARGUMENT
    /\ trace w' =
       [EvCreateExternal; EvCreateReference r;
        EvThrow "event_stream_client_connection_new - failed to initialize native connection configuration from js connection configuration"]
    /\ heap w' = Some b /\ pristine b
    /\ forall env',
         exists w'',
           s_aws_event_stream_client_connection_extern_finalize env' w' = Done w''
           /\ heap w'' = None
           /\ finalizer_runs w'' = 1
           /\ (env' <> None -> In (EvDeleteReference r) (trace w'')).
Proof.
  intros Hcb Hext Hc Hr Ho Hbad.
  pose proof (invalid_configuration_rejected env o
                (set_connection_ref (Some r) fresh_binding) Hbad) as Herr.
  pose proof (s_init_pristine env o (set_connection_ref (Some r) fresh_binding)) as Hpr.
  pose proof (s_init_frame node_event_stream_client_connection_ref env o
                (set_connection_ref (Some r) fresh_binding)
                (fun _ _ => eq_refl) (fun _ _ => eq_refl)) as Hnode.
  unfold aws_napi_event_stream_client_connection_new.
  rewrite Hcb, Hext. simpl.
  unfold new_arg_connection. rewrite Hc, Hr. simpl.
  unfold new_arg_options. rewrite Ho.
  destruct (s_init_event_stream_connection_configuration_from_js_connection_configuration
              env o (set_connection_ref (Some r) fresh_binding)) as [b1 err].
  simpl in Herr, Hpr, Hnode. subst err. simpl.
  specialize (Hpr (conj eq_refl (conj eq_refl eq_refl))).
  eexists. exists b1. split; [reflexivity|]. split; [reflexivity|].
  split; [reflexivity|]. split; [reflexivity|]. split; [exact Hpr|].
  intros env'.
  match goal with
  | |- exists w'', s_aws_event_stream_client_connection_extern_finalize _ ?w = _ /\ _ =>
      destruct (finalize_pristine env' w b1 eq_refl Hpr) as (w'' & E & Hh & Hf & Ht)
  end.
  exists w''. split; [exact E|]. split; [exact Hh|]. split; [exact Hf|].
  intros Henv. rewrite Ht. destruct env' as [e|]; [|congruence].
  apply in_or_app. right. apply in_or_app. left. simpl.
  rewrite Hnode. simpl. apply in_or_app. right. left. reflexivity.
Qed.

(** ** What the host calls and the collection can do *)

Lemma only_threw_throw msg w : only_threw w (throw msg w).
Proof. repeat split. exists msg. reflexivity. Qed.


(** Giving back one of [S n] references, spelled out. *)
Lemma release_spelled_out w b n :
  heap w = Some b ->
  ref_count b = S n ->
  exists w' es,
    s_aws_event_stream_client_connection_binding_release TheBinding w = Done w'
    /\ trace w' = trace w ++ EvRefRelease :: es
    /\ after_release n es
    /\ heap w' = match n with O => None | S _ => Some (set_ref_count n b) end
    /\ setup_queue w' = setup_queue w /\ shutdown_queue w' = shutdown_queue w.
Proof.
  intros Hb Hn.
  unfold s_aws_event_stream_client_connection_binding_release, aws_ref_count_release, deref.
  rewrite Hb, Hn. destruct n as [|n].
  - unfold s_aws_event_stream_client_connection_binding_on_zero, deref. simpl.
    eexists. exists (on_zero_events (set_ref_count 0 b)).
    split; [reflexivity|]. simpl. rewrite <- app_assoc. repeat split.
    eexists. reflexivity.
  - eexists. exists []. split; [reflexivity|]. repeat split.
Qed.


Lemma connect_cases env info r w w' :
  aws_napi_event_stream_client_connection_connect env info r w = Done w' ->
  only_threw w w'
  \/ exists b callback,
       info = [node_external; callback]
       /\ connectable env w b
       /\ w' = if Z.eqb r 0
               then emits (connect_events b true) (store (connecting callback b) w)
               else emits (connect_events b false ++ connect_failure_events)
                          (store (not_connecting callback b) w).
Proof.
  unfold aws_napi_event_stream_client_connection_connect.
  destruct (negb (env_get_cb_info_ok env)) eqn:Hcb.
  { intros E. inversion E. left. apply only_threw_throw. }
  apply negb_false_iff in Hcb.
  destruct info as [|node_binding [|callback [|]]];
    try (intros E; inversion E; left; apply only_threw_throw).
  destruct (napi_get_value_external node_binding) as [p|] eqn:Hp;
    [|intros E; inversion E; left; apply only_threw_throw].
  destruct node_binding; try discriminate Hp. simpl in Hp. inversion Hp. subst p.
  destruct p0; simpl; try discriminate.
  { intros E. inversion E. left. apply only_threw_throw. }
  unfold deref. destruct (heap w) as [b|] eqn:Hb; [|discriminate].
  destruct (is_closed b) eqn:Hcl.
  { intros E. inversion E. left. apply only_threw_throw. }
  destruct (connection b) as [x|] eqn:Hconn; [discriminate|].
  destruct (negb (env_create_threadsafe_function_ok env)) eqn:Hts.
  { intros E. inversion E. left. apply only_threw_throw. }
  apply negb_false_iff in Hts.
  destruct (ref_count b) as [|n] eqn:Hrc.
  { unfold aws_ref_count_acquire, deref. simpl. rewrite Hrc. discriminate. }
  intros E. right. exists b, callback. split; [reflexivity|].
  assert (Hpre : connectable env w b).
  { unfold connectable. repeat split; try assumption. lia. }
  split; [exact Hpre|].
  pose proof (connect_reaches_native env callback r w b Hpre) as E2.
  unfold aws_napi_event_stream_client_connection_connect, deref in E2.
  rewrite Hcb, Hb in E2. simpl in E2. rewrite Hcl, Hconn, Hts in E2. simpl in E2.
  rewrite E in E2. destruct (Z.eqb r 0); inversion E2; reflexivity.
Qed.

Lemma close_cases env info w w' :
  aws_napi_event_stream_client_connection_close env info w = Done w' ->
  (exists msg, w' = throw msg w)
  \/ exists b, heap w = Some b
               /\ w' = emits (snd (close_binding_fields (Some env) b))
                             (store (closed_fields b) w).
Proof.
  revert w'.
  change (returns (aws_napi_event_stream_client_connection_close env info w)
            (fun w' => (exists msg, w' = throw msg w)
                       \/ exists b, heap w = Some b
                                    /\ w' = emits (snd (close_binding_fields (Some env) b))
                                                  (store (closed_fields b) w))).
  unfold aws_napi_event_stream_client_connection_close, as_binding_ptr.
  repeat (step_returns; simpl); try (left; eexists; reflexivity).
  destruct e; simpl; repeat step_returns; try (left; eexists; reflexivity).
  apply s_close_binding_returns. intros b Hb. right. exists b. split; [exact Hb|reflexivity].
Qed.

(** The collection of the external: on a binding that holds a connection,
    on one that is closed, on one that is neither. *)
Lemma finalize_cases env w w' :
  s_aws_event_stream_client_connection_extern_finalize env w = Done w' ->
  exists b,
    heap w = Some b
    /\ match connection b with
       | Some c => w' = store (set_connection None b) (emit (EvNativeRelease (Some c)) w)
       | None =>
           if is_closed b then w' = w
           else exists n es,
                  ref_count b = S n
                  /\ after_release n es
                  /\ trace w' = trace w ++ snd (close_binding_fields env b)
                                ++ EvRefRelease :: es
                  /\ heap w' = match n with
                               | O => None
                               | S _ => Some (set_ref_count n (closed_fields b))
                               end
                  /\ setup_queue w' = setup_queue w
                  /\ shutdown_queue w' = shutdown_queue w
       end.
Proof.
  unfold s_aws_event_stream_client_connection_extern_finalize, deref.
  destruct (heap w) as [b|] eqn:Hb; [|discriminate].
  intros E. exists b. split; [reflexivity|].
  destruct (connection b) as [c|]; [inversion E; reflexivity|].
  destruct (is_closed b); simpl in E; [inversion E; reflexivity|].
  rewrite (s_close_binding_live env w b Hb) in E. cbn [bind] in E.
  destruct (ref_count b) as [|n] eqn:Hn.
  { unfold s_aws_event_stream_client_connection_binding_release,
      aws_ref_count_release, deref in E. simpl in E. rewrite Hn in E.
    discriminate E. }
  destruct (release_spelled_out
              (emits (snd (close_binding_fields env b)) (store (closed_fields b) w))
              (closed_fields b) n eq_refl Hn)
    as (w1 & es & E1 & Ht & Hes & Hh & Hq1 & Hq2).
  change (aws_ref_count_release ?x)
    with (s_aws_event_stream_client_connection_binding_release TheBinding x) in E.
  rewrite E1 in E. inversion E. subst w1.
  exists n, es. split; [reflexivity|]. split; [exact Hes|].
  split; [rewrite Ht; simpl; rewrite <- app_assoc; reflexivity|].
  split; [exact Hh|]. split; [exact Hq1|exact Hq2].
Qed.

(** ** The deliveries as the dispatcher makes them *)

Lemma registered_kept w w' :
  registered w ->
  setup_queue w' = setup_queue w -> shutdown_queue w' = shutdown_queue w ->
  (forall b', heap w' = Some b' ->
     exists b, heap w = Some b
               /\ on_connection_setup b' = on_connection_setup b
               /\ on_connection_shutdown b' = on_connection_shutdown b) ->
  registered w'.
Proof.
  intros (Hs & Hq & Hb) Es Eq H. unfold registered. rewrite Es, Eq.
  split; [exact Hs|]. split; [exact Hq|].
  destruct (heap w') as [b'|]; [|exact I].
  destruct (H b' eq_refl) as (b & Eb & E1 & E2). rewrite Eb in Hb.
  unfold binding_registered in *. rewrite E1, E2. exact Hb.
Qed.

(** The handlers read their event data from the context, and the context of
    a queued call is the binding or NULL: no call of a handler returns. *)
Lemma handler_call_faults l w :
  registered w -> is_handler_call l = true ->
  step l w = None \/ exists what, step l w = Some (Undefined what).
Proof.
  intros (Hs & Hq & _) Hl. destruct l; try discriminate Hl; simpl.
  - unfold pop_setup. destruct (setup_queue w) as [|q rest]; [left; reflexivity|].
    right. inversion Hs as [|? ? Hc _]. rewrite Hc. eexists. reflexivity.
  - unfold pop_shutdown. destruct (shutdown_queue w) as [|q rest]; [left; reflexivity|].
    right. inversion Hq as [|? ? Hc _]. rewrite Hc. eexists. reflexivity.
Qed.

Lemma after_release_events ok n es :
  ok EvStringDestroy = true -> ok EvTlsCleanUp = true -> ok EvMemRelease = true ->
  (forall x, ok (EvReleaseThreadsafeFunction x) = true) ->
  after_release n es -> forallb ok es = true.
Proof.
  intros H1 H2 H3 H4 H. destruct n; simpl in H.
  - destruct H as (b0 & ->). unfold on_zero_events. simpl. rewrite H1, H2. simpl.
    rewrite !forallb_app, !forallb_clean_threadsafe_function by exact H4.
    simpl. rewrite H3. reflexivity.
  - subst es. reflexivity.
Qed.

Lemma settled_step l w w' :
  registered w -> connection_empty w ->
  step l w = Some (Done w') ->
  is_handler_call l = false
  /\ registered w' /\ connection_empty w'
  /\ continues no_handler_effect w w'
  /\ (attempt_held w -> attempt_held w' /\ continues not_mem_release w w').
Proof.
  intros Hreg Hemp Hs.
  destruct (is_handler_call l) eqn:Hl.
  { destruct (handler_call_faults l w Hreg Hl) as [E|(what & E)];
      rewrite E in Hs; discriminate Hs. }
  split; [reflexivity|].
  assert (Hthrow : forall msg, w' = throw msg w ->
            registered w' /\ connection_empty w'
            /\ continues no_handler_effect w w'
            /\ (attempt_held w -> attempt_held w' /\ continues not_mem_release w w')).
  { intros msg ->. split; [|split; [|split]].
    - apply (registered_kept w); try reflexivity; [exact Hreg|].
      intros b' Hb'. exists b'. repeat split. exact Hb'.
    - exact Hemp.
    - exists [EvThrow msg]. split; reflexivity.
    - intros Hh. split; [exact Hh|]. exists [EvThrow msg]. split; reflexivity. }
  destruct l; try discriminate Hl; simpl in Hs.
  - (* connect *)
    inversion Hs as [E]; clear Hs.
    destruct (connect_cases env info connect_result w w' E)
      as [(Hh & Hsq & Hq & msg & Ht)|(b & callback & _ & Hpre & Hw')].
    + split; [|split; [|split]].
      * apply (registered_kept w); try assumption.
        intros b' Hb'. exists b'. rewrite <- Hh. repeat split. exact Hb'.
      * unfold connection_empty. rewrite Hh. exact Hemp.
      * exists [EvThrow msg]. split; [exact Ht|reflexivity].
      * intros (b & Hb & Hc). split.
        -- exists b. rewrite Hh. split; assumption.
        -- exists [EvThrow msg]. split; [exact Ht|reflexivity].
    + destruct Hpre as (Hb & Hcl & Hn & Hr & _).
      destruct Hreg as (Hrs & Hrq & Hrb). rewrite Hb in Hrb.
      assert (Hheld : forall k, attempt_held w -> ref_count b <= k ->
                attempt_held (store (set_ref_count k
                  (set_on_connection_setup (Some (setup_tsfn callback)) b)) w)).
      { intros k (b0 & Hb0 & _ & Hk) Hle. rewrite Hb in Hb0. inversion Hb0. subst b0.
        eexists. split; [reflexivity|]. simpl. split; [exact Hn|].
        rewrite Hcl in *. lia. }
      destruct (Z.eqb connect_result 0); subst w';
        (split; [|split; [|split]]);
        try (split; [exact Hrs|split; [exact Hrq|]]; simpl; split; [reflexivity|apply Hrb]);
        try exact Hn;
        try (eexists; split; [reflexivity|reflexivity]).
      * intros Hh. split; [|eexists; split; reflexivity].
        destruct (Hheld (S (ref_count b)) Hh) as (b1 & Hb1 & H1); [lia|].
        exists b1. split; [exact Hb1|exact H1].
      * intros Hh. split; [|eexists; split; reflexivity].
        destruct (Hheld (ref_count b) Hh) as (b1 & Hb1 & H1); [lia|].
        exists b1. split; [exact Hb1|exact H1].
  - (* close *)
    inversion Hs as [E]; clear Hs.
    destruct (close_cases env info w w' E) as [[msg Hw']|(b & Hb & Hw')];
      [exact (Hthrow msg Hw')|]. subst w'.
    split; [|split; [|split]].
    + apply (registered_kept w); try reflexivity; [exact Hreg|].
      intros b' Hb'. simpl in Hb'. inversion Hb'. exists b. repeat split. exact Hb.
    + unfold connection_empty in *. simpl. rewrite Hb in Hemp. exact Hemp.
    + eexists. split; [reflexivity|]. apply close_binding_fields_snd. reflexivity.
    + intros (b0 & Hb0 & Hc & Hk). rewrite Hb in Hb0. inversion Hb0. subst b0. split.
      * eexists. split; [reflexivity|]. simpl. split; [exact Hc|].
        destruct (is_closed b); lia.
      * eexists. split; [reflexivity|]. apply close_binding_fields_snd. reflexivity.
  - (* the collection of the external *)
    inversion Hs as [E]; clear Hs.
    destruct (finalize_cases env w w' E) as (b & Hb & H).
    unfold connection_empty in Hemp. rewrite Hb in Hemp. rewrite Hemp in H.
    destruct (is_closed b) eqn:Hcl.
    { subst w'. split; [exact Hreg|]. split; [unfold connection_empty; rewrite Hb; exact Hemp|].
      split; [apply continues_refl; reflexivity|].
      intros Hh. split; [exact Hh|apply continues_refl; reflexivity]. }
    destruct H as (n & es & Hn & Hes & Ht & Hh & Hsq & Hq).
    split; [|split; [|split]].
    + apply (registered_kept w); try assumption.
      intros b' Hb'. rewrite Hh in Hb'. destruct n; [discriminate Hb'|].
      inversion Hb'. exists b. repeat split. exact Hb.
    + unfold connection_empty. rewrite Hh. destruct n; [exact I|exact Hemp].
    + eexists. split; [exact Ht|]. rewrite forallb_app. apply andb_true_intro. split.
      * apply close_binding_fields_snd. reflexivity.
      * simpl. apply (after_release_events _ n); try reflexivity. exact Hes.
    + intros (b0 & Hb0 & _ & Hk). rewrite Hb in Hb0. inversion Hb0. subst b0.
      rewrite Hcl in Hk. destruct n as [|n]; [lia|]. simpl in Hes. subst es. split.
      * eexists. split; [exact Hh|]. simpl. split; [exact Hemp|]. lia.
      * eexists. split; [exact Ht|]. rewrite forallb_app. apply andb_true_intro. split.
        -- apply close_binding_fields_snd. reflexivity.
        -- reflexivity.
  - (* the native setup callback *)
    destruct (Nat.ltb 0 (pending_setups w)); [|discriminate Hs].
    inversion Hs as [E]; clear Hs. revert E.
    unfold s_aws_event_stream_rpc_client_on_connection_setup_fn, deref.
    destruct (heap w) as [b|] eqn:Hb; [|discriminate].
    destruct (on_connection_setup b) as [f|] eqn:Hf; [|discriminate].
    intros E. inversion E. clear E.
    destruct Hreg as (Hrs & Hrq & Hrb). rewrite Hb in Hrb.
    split; [|split; [|split]].
    + split; [|split; [exact Hrq|simpl; try rewrite Hb; exact Hrb]].
      simpl. apply Forall_app. split; [exact Hrs|].
      constructor; [|constructor]. simpl.
      destruct Hrb as [Hrb _]. rewrite Hf in Hrb. exact Hrb.
    + unfold connection_empty in *. simpl. rewrite Hb in Hemp. exact Hemp.
    + eexists. split; reflexivity.
    + intros (b0 & Hh). rewrite Hb in Hh.
      split; [exists b0; simpl; exact Hh|eexists; split; reflexivity].
  - (* the native shutdown callback *)
    destruct (awaiting_shutdown c w); [|discriminate Hs].
    inversion Hs as [E]; clear Hs. revert E.
    unfold s_aws_event_stream_rpc_client_on_connection_shutdown_fn, deref.
    destruct (heap w) as [b|] eqn:Hb; [|discriminate].
    destruct (on_connection_shutdown b) as [f|] eqn:Hf; [|discriminate].
    intros E. inversion E. clear E.
    destruct Hreg as (Hrs & Hrq & Hrb). rewrite Hb in Hrb.
    split; [|split; [|split]].
    + split; [exact Hrs|]. split; [|simpl; try rewrite Hb; exact Hrb].
      simpl. apply Forall_app. split; [exact Hrq|].
      constructor; [|constructor]. simpl.
      destruct Hrb as [_ Hrb]. rewrite Hf in Hrb. exact Hrb.
    + unfold connection_empty in *. simpl. rewrite Hb in Hemp. exact Hemp.
    + eexists. split; reflexivity.
    + intros (b0 & Hh). rewrite Hb in Hh.
      split; [exists b0; simpl; exact Hh|eexists; split; reflexivity].
  - (* the native message callback *)
    destruct (awaiting_shutdown c w); [|discriminate Hs].
    inversion Hs. subst w'.
    split; [exact Hreg|]. split; [exact Hemp|].
    split; [apply continues_refl; reflexivity|].
    intros Hh. split; [exact Hh|apply continues_refl; reflexivity].
Qed.

Lemma settled_run ls : forall w w',
  registered w -> connection_empty w ->
  run ls w = Some w' ->
  forallb (fun l => negb (is_handler_call l)) ls = true
  /\ registered w' /\ connection_empty w'
  /\ continues no_handler_effect w w'
  /\ (attempt_held w -> attempt_held w' /\ continues not_mem_release w w').
Proof.
  induction ls as [|l ls IH]; simpl; intros w w' Hreg Hemp Hrun.
  - inversion Hrun. subst w'. split; [reflexivity|]. split; [exact Hreg|].
    split; [exact Hemp|]. split; [apply continues_refl; reflexivity|].
    intros Hh. split; [exact Hh|apply continues_refl; reflexivity].
  - destruct (step l w) as [[w1| |]|] eqn:Hs; try discriminate Hrun.
    destruct (settled_step l w w1 Hreg Hemp Hs) as (Hl & Hreg1 & Hemp1 & Hc1 & Hh1).
    destruct (IH w1 w' Hreg1 Hemp1 Hrun) as (Hls & Hreg' & Hemp' & Hc' & Hh').
    rewrite Hl. split; [exact Hls|]. split; [exact Hreg'|]. split; [exact Hemp'|].
    split; [exact (continues_trans _ _ _ _ Hc1 Hc')|].
    intros Hh. destruct (Hh1 Hh) as [Hh2 Hm1]. destruct (Hh' Hh2) as [Hh3 Hm2].
    split; [exact Hh3|exact (continues_trans _ _ _ _ Hm1 Hm2)].
Qed.




(** Once a native callback has queued its call, the dispatcher can make the
    call, and the handler faults on its context. *)
Lemma setup_delivery_faults env conn code w w1 :
  registered w -> connection_empty w ->
  step (NativeSetup conn code) w = Some (Done w1) ->
  step (DeliverSetup env) w1
  = Some (Undefined "setup_data->binding: context is not event data").
Proof.
  intros Hreg Hemp Hs.
  destruct (settled_step _ w w1 Hreg Hemp Hs) as (_ & (Hq & _) & _).
  simpl in Hs. destruct (Nat.ltb 0 (pending_setups w)); [|discriminate Hs].
  inversion Hs as [E]; clear Hs. revert E.
  unfold s_aws_event_stream_rpc_client_on_connection_setup_fn, deref.
  destruct (heap w) as [b|]; [|discriminate].
  destruct (on_connection_setup b) as [f|]; [|discriminate].
  intros E. inversion E. subst w1. clear E. simpl in *. unfold pop_setup. simpl.
  destruct (setup_queue w) as [|q rest]; simpl in *;
    inversion Hq as [|? ? Hc _]; simpl in Hc; rewrite Hc; reflexivity.
Qed.


Lemma continues_counts ok p w w' :
  (forall e, ok e = true -> p e = false) ->
  continues ok w w' -> count p (trace w') = count p (trace w).
Proof. intros H Hc. exact (continues_count ok p w w' H Hc). Qed.

(** C1, as the code has it.  A [connect] call that the native library
    accepts takes exactly one reference on the binding, before it calls the
    native connect.  No delivery gives that reference back.  The two
    handlers read their event data from [context], which is the binding for
    the setup handler and NULL for the shutdown handler, and leave the
    payload that was queued unread: whatever the native library reports, the
    call of the setup handler is outside the C semantics, and in a run where
    every step returns no handler is called.  In every such run the binding
    stays allocated, with one reference on it besides the one the collection
    of the external can give back, and it is never torn down. *)
Theorem outstanding_reference_never_released
  (env : napi_env) (callback : napi_value) (w : world) (b : binding) :
  registered w ->
  connectable env w b ->
  exists w1,
    aws_napi_event_stream_client_connection_connect env [node_external; callback] 0 w
    = Done w1
    /\ trace w1 = trace w ++ connect_events b true
    /\ references w1 = S (ref_count b)
    /\ forall ls w2,
         run ls w1 = Some w2 ->
         forallb (fun l => negb (is_handler_call l)) ls = true
         /\ attempt_held w2
         /\ finalizer_runs w2 = finalizer_runs w
         /\ forall conn code setup_env w3,
              step (NativeSetup conn code) w2 = Some (Done w3) ->
              step (DeliverSetup setup_env) w3
              = Some (Undefined "setup_data->binding: context is not event data").
Proof.
  intros Hreg Hpre.
  pose proof (connect_reaches_native env callback 0 w b Hpre) as E. simpl in E.
  destruct Hpre as (Hb & Hcl & Hn & Hr & _).
  assert (Hemp : connection_empty w).
  { unfold connection_empty. rewrite Hb. exact Hn. }
  assert (Hstep : step (HostConnect env [node_external; callback] 0) w
                  = Some (Done (emits (connect_events b true)
                                      (store (connecting callback b) w)))).
  { simpl. rewrite E. reflexivity. }
  destruct (settled_step _ w _ Hreg Hemp Hstep) as (_ & Hreg1 & Hemp1 & _).
  eexists. split; [exact E|]. split; [reflexivity|]. split; [reflexivity|].
  intros ls w2 Hrun.
  assert (Hheld : attempt_held
                    (emits (connect_events b true) (store (connecting callback b) w))).
  { eexists. split; [reflexivity|]. simpl. split; [exact Hn|]. rewrite Hcl. lia. }
  destruct (settled_run ls _ w2 Hreg1 Hemp1 Hrun) as (Hls & Hreg2 & Hemp2 & _ & Hh).
  destruct (Hh Hheld) as [Hheld2 Hm].
  split; [exact Hls|]. split; [exact Hheld2|]. split.
  - unfold finalizer_runs.
    rewrite (continues_counts not_mem_release is_mem_release _ _
               (fun e He => proj1 (negb_true_iff _) He) Hm).
    simpl. rewrite count_app. unfold connect_events, count. simpl. lia.
  - intros conn code setup_env w3 Hs.
    exact (setup_delivery_faults setup_env conn code w2 w3 Hreg2 Hemp2 Hs).
Qed.

(** Were its context the event data, the shutdown handler would still not
    get past its first assertion on a binding whose connection field the
    finalizer has cleared. *)
Lemma shutdown_asserts_connection env d user_data w b :
  heap w = Some b ->
  connection b = None ->
  s_napi_event_stream_connection_on_connection_shutdown
    env (ContextEventData d) user_data w
  = Fatal "binding->connection != NULL".
Proof.
  intros Hb Hc. unfold s_napi_event_stream_connection_on_connection_shutdown, deref.
  rewrite Hb, Hc. reflexivity.
Qed.


(** C3, as the code has it.  When the native library reports a connection
    in its setup callback, the call is queued for the setup handler with
    the binding as its context, and the handler, which reads its event data
    from there, faults: the setup delivery neither closes the binding nor
    closes the connection that came with the payload, whether or not the
    binding is closed by then.  In a run where every step returns no handler
    is called, the host callbacks stay uncalled, and the connection is never
    closed and never released. *)
Theorem abandoned_setup_never_closes_connection
  (x : connection_ptr) (code : Z) (w w1 : world) :
  registered w ->
  connection_empty w ->
  step (NativeSetup (Some x) code) w = Some (Done w1) ->
  (forall env,
     step (DeliverSetup env) w1
     = Some (Undefined "setup_data->binding: context is not event data"))
  /\ forall ls w2,
       run ls w1 = Some w2 ->
       forallb (fun l => negb (is_handler_call l)) ls = true
       /\ heap w1 = heap w
       /\ count is_host_callback (trace w2) = count is_host_callback (trace w)
       /\ count (closes x) (trace w2) = count (closes x) (trace w)
       /\ count (releases x) (trace w2) = count (releases x) (trace w).
Proof.
  intros Hreg Hemp Hs. split.
  { intros env. exact (setup_delivery_faults env (Some x) code w w1 Hreg Hemp Hs). }
  intros ls w2 Hrun.
  destruct (settled_step _ w w1 Hreg Hemp Hs) as (_ & Hreg1 & Hemp1 & Hc1 & _).
  destruct (settled_run ls w1 w2 Hreg1 Hemp1 Hrun) as (Hls & _ & _ & Hc2 & _).
  pose proof (continues_trans _ _ _ _ Hc1 Hc2) as Hc.
  split; [exact Hls|]. split.
  { simpl in Hs. destruct (Nat.ltb 0 (pending_setups w)); [|discriminate Hs].
    inversion Hs as [E]. revert E.
    unfold s_aws_event_stream_rpc_client_on_connection_setup_fn, deref.
    destruct (heap w) as [b|]; [|discriminate].
    destruct (on_connection_setup b); [|discriminate].
    intros E. inversion E. reflexivity. }
  repeat split; apply (continues_counts no_handler_effect _ _ _) with (2 := Hc);
    intros [] He; try reflexivity; discriminate He.
Qed.

(** * The properties on the concrete host *)

Lemma sample_world_created :
  aws_napi_event_stream_client_connection_new
    sample_env (sample_info (sample_options 8080)) empty_world
  = Done (Some node_external, sample_world).
Proof. reflexivity. Qed.

Lemma sample_world_connectable : connectable sample_env sample_world sample_binding.
Proof. unfold connectable. repeat split; try reflexivity. simpl. lia. Defined.


Lemma sample_world_registered : registered sample_world.
Proof. split; [constructor|]. split; [constructor|]. split; [exact I|reflexivity]. Defined.

Lemma outstanding_reference_never_released_witness :
  registered sample_world
  /\ connectable sample_env sample_world sample_binding
  /\ aws_napi_event_stream_client_connection_connect
       sample_env [node_external; JsFunction 3] 0 sample_world
     = Done sample_attempt_world
  /\ run [NativeSetup None 5] sample_attempt_world = Some sample_failed_report_world
  /\ step (DeliverSetup (Some sample_env)) sample_failed_report_world
     = Some (Undefined "setup_data->binding: context is not event data")
  /\ references sample_failed_report_world = 2
  /\ attempt_held sample_failed_report_world
  /\ finalizer_runs sample_failed_report_world = finalizer_runs sample_world.
Proof.
  split; [exact sample_world_registered|]. split; [exact sample_world_connectable|].
  destruct (outstanding_reference_never_released sample_env (JsFunction 3)
              sample_world sample_binding sample_world_registered sample_world_connectable)
    as (w1 & E & _ & _ & H).
  assert (Ew : w1 = sample_attempt_world).
  { assert (E' : aws_napi_event_stream_client_connection_connect
                   sample_env [node_external; JsFunction 3] 0 sample_world
                 = Done sample_attempt_world) by reflexivity.
    rewrite E in E'. inversion E'. reflexivity. }
  subst w1. split; [exact E|]. split; [reflexivity|].
  destruct (H [NativeSetup None 5] sample_failed_report_world eq_refl)
    as (_ & Hheld & Hf & _).
  destruct (H [] sample_attempt_world eq_refl) as (_ & _ & _ & Hd).
  split; [exact (Hd None 5%Z (Some sample_env) sample_failed_report_world eq_refl)|].
  split; [reflexivity|]. split; [exact Hheld|exact Hf].
Defined.



Lemma sample_abandoned_registered : registered sample_abandoned_world.
Proof. split; [constructor|]. split; [constructor|]. split; reflexivity. Defined.

Lemma abandoned_setup_never_closes_connection_witness :
  registered sample_abandoned_world
  /\ connection_empty sample_abandoned_world
  /\ closed_or_gone sample_abandoned_world = true
  /\ step (NativeSetup (Some 7) 0) sample_abandoned_world
     = Some (Done sample_abandoned_reported_world)
  /\ step (DeliverSetup (Some sample_env)) sample_abandoned_reported_world
     = Some (Undefined "setup_data->binding: context is not event data")
  /\ run (skipn 1 sample_abandoned_steps) sample_abandoned_reported_world
     = Some sample_abandoned_end
  /\ count (closes 7) (trace sample_abandoned_end) = 0
  /\ count (releases 7) (trace sample_abandoned_end) = 0.
Proof.
  split; [exact sample_abandoned_registered|]. split; [reflexivity|].
  split; [reflexivity|]. split; [reflexivity|].
  destruct (abandoned_setup_never_closes_connection 7 0 sample_abandoned_world
              sample_abandoned_reported_world sample_abandoned_registered eq_refl eq_refl)
    as [Hd H].
  split; [exact (Hd (Some sample_env))|]. split; [reflexivity|].
  destruct (H (skipn 1 sample_abandoned_steps) sample_abandoned_end eq_refl)
    as (_ & _ & _ & Hc & Hr).
  split; [rewrite Hc; reflexivity|rewrite Hr; reflexivity].
Defined.
Lemma synchronous_connect_failure_witness :
  connectable sample_env sample_world sample_binding
  /\ 1%Z <> 0%Z
  /\ exists w',
       aws_napi_event_stream_client_connection_connect
         sample_env [node_external; JsFunction 3] 1 sample_world = Done w'
       /\ trace w' = trace sample_world ++ connect_events sample_binding false
                     ++ connect_failure_events
       /\ references w' = references sample_world.
Proof.
  split; [exact sample_world_connectable|].
  assert (Hne : 1%Z <> 0%Z) by discriminate.
  split; [exact Hne|].
  destruct (synchronous_connect_failure sample_env (JsFunction 3) 1
              sample_world sample_binding sample_world_connectable Hne)
    as (w' & E & Ht & Hr & _).
  exists w'. repeat split; assumption.
Defined.

Lemma sample_missing_host : ~ valid_configuration sample_env sample_options_no_host.
Proof.
  intros (ps & s & z & E & Hh & _). inversion E. subst ps. discriminate Hh.
Defined.

Lemma create_rejects_invalid_configuration_witness :
  env_get_cb_info_ok sample_env = true
  /\ env_create_external_ok sample_env = true
  /\ aws_napi_is_null_or_undefined sample_proxy = false
  /\ env_create_reference sample_env sample_proxy = Some 1
  /\ aws_napi_is_null_or_undefined sample_options_no_host = false
  /\ ~ valid_configuration sample_env sample_options_no_host
  /\ exists w' b,
       aws_napi_event_stream_client_connection_new
         sample_env (sample_info sample_options_no_host) empty_world = Done (None, w')
       /\ heap w' = Some b /\ pristine b
       /\ forall env', exists w'',
            s_aws_event_stream_client_connection_extern_finalize env' w' = Done w''
            /\ heap w'' = None
            /\ finalizer_runs w'' = 1.
Proof.
  repeat (split; [reflexivity|]). split; [exact sample_missing_host|].
  destruct (create_rejects_invalid_configuration sample_env
              sample_proxy sample_options_no_host (JsFunction 1) (JsFunction 2)
              JsUndefined JsUndefined 1
              eq_refl eq_refl eq_refl eq_refl eq_refl sample_missing_host)
    as (w' & b & E & _ & _ & Hb & Hp & Hf).
  exists w', b. split; [exact E|]. split; [exact Hb|]. split; [exact Hp|].
  intros env'. destruct (Hf env') as (w'' & Ef & Hh & Hr & _).
  exists w''. repeat split; assumption.
Defined.


(** C5, as stated, fails: when [create] throws for a port of 0, or for a
    missing host name, the binding it allocated is still there when it
    returns, with its one reference and the reference to the host proxy the
    call made. *)
Lemma failed_create_leaves_binding_alive :
  (exists w b,
     aws_napi_event_stream_client_connection_new
       sample_env (sample_info (sample_options 0)) empty_world
     = Done (None, w)
     /\ heap w = Some b /\ ref_count b = 1
     /\ node_event_stream_client_connection_ref b = Some 1
     /\ count is_throw (trace w) = 1
     /\ finalizer_runs w = 0)
  /\ (exists w b,
        aws_napi_event_stream_client_connection_new
          sample_env (sample_info sample_options_no_host) empty_world
        = Done (None, w)
        /\ heap w = Some b /\ ref_count b = 1
        /\ node_event_stream_client_connection_ref b = Some 1
        /\ count is_throw (trace w) = 1
        /\ finalizer_runs w = 0).
Proof.
  split; eexists; eexists; repeat split.
Qed.
Lemma connect_preconditions_witness :
  heap sample_closed_world = Some (closed_fields sample_binding)
  /\ env_get_cb_info_ok sample_env = true
  /\ (is_closed (closed_fields sample_binding) = true ->
      aws_napi_event_stream_client_connection_connect
        sample_env [node_external; JsFunction 3] 0 sample_closed_world =
      Done (throw "aws_napi_event_stream_client_connection_connect - connection already closed"
                  sample_closed_world))
  /\ (is_closed (closed_fields sample_binding) = false ->
      connection (closed_fields sample_binding) <> None ->
      aws_napi_event_stream_client_connection_connect
        sample_env [node_external; JsFunction 3] 0 sample_closed_world =
      Fatal "binding->connection == NULL").
Proof.
  split; [reflexivity|]. split; [reflexivity|].
  exact (connect_preconditions sample_env (JsFunction 3) 0 sample_closed_world
           (closed_fields sample_binding) eq_refl eq_refl).
Defined.

(** C6, as stated, fails: [connect] on a closed binding is an error thrown
    to the caller, not a fault. *)
Lemma connect_on_closed_binding_throws :
  is_closed (closed_fields sample_binding) = true
  /\ aws_napi_event_stream_client_connection_connect
       sample_env [node_external; JsFunction 3] 0 sample_closed_world =
     Done (throw "aws_napi_event_stream_client_connection_connect - connection already closed"
                 sample_closed_world)
  /\ forall what,
       aws_napi_event_stream_client_connection_connect
         sample_env [node_external; JsFunction 3] 0 sample_closed_world <> Fatal what.
Proof.
  split; [reflexivity|]. split; [reflexivity|]. intros what. discriminate.
Qed.


Lemma sample_abandoned_run :
  run sample_abandoned_steps sample_abandoned_world = Some sample_abandoned_end.
Proof. reflexivity. Defined.

Lemma closed_is_monotonic_witness :
  run sample_abandoned_steps sample_abandoned_world = Some sample_abandoned_end
  /\ heap sample_abandoned_world = Some sample_abandoned_binding
  /\ is_closed sample_abandoned_binding = true
  /\ (forall b', heap sample_abandoned_end = Some b' -> is_closed b' = true)
  /\ count is_host_callback (trace sample_abandoned_end)
     = count is_host_callback (trace sample_abandoned_world).
Proof.
  split; [reflexivity|]. split; [reflexivity|]. split; [reflexivity|].
  exact (closed_is_monotonic sample_abandoned_steps sample_abandoned_world
           sample_abandoned_end sample_abandoned_binding
           sample_abandoned_run eq_refl eq_refl).
Defined.
Lemma finalizer_runs_once_witness :
  heap sample_world = Some sample_binding
  /\ ref_count sample_binding = 1
  /\ balanced [OpAcquire; OpAcquire; OpRelease; OpRelease; OpRelease]
  /\ exists w',
       ref_run [OpAcquire; OpAcquire; OpRelease; OpRelease; OpRelease] sample_world = Done w'
       /\ heap w' = None
       /\ finalizer_runs w' = S (finalizer_runs sample_world).
Proof.
  split; [reflexivity|]. split; [reflexivity|]. split; [reflexivity|].
  exact (proj1 (finalizer_runs_once
                  [OpAcquire; OpAcquire; OpRelease; OpRelease; OpRelease]
                  sample_world sample_binding eq_refl eq_refl eq_refl)).
Defined.

Lemma close_idempotent_witness :
  0 < 3
  /\ env_get_cb_info_ok sample_env = true
  /\ close_times 3 sample_env [node_external] sample_world =
     aws_napi_event_stream_client_connection_close sample_env [node_external] sample_world.
Proof.
  assert (H : 0 < 3) by lia.
  split; [exact H|]. split; [reflexivity|].
  exact (close_idempotent 3 sample_env sample_world H eq_refl).
Defined.

Lemma close_frame_witness :
  heap sample_world = Some sample_binding
  /\ (forall w',
        aws_napi_event_stream_client_connection_close sample_env [node_external] sample_world
        = Done w' -> close_leaves sample_binding sample_world w')
  /\ (env_get_cb_info_ok sample_env = true ->
      exists w',
        aws_napi_event_stream_client_connection_close sample_env [node_external] sample_world
        = Done w'
        /\ heap w' = Some (closed_fields sample_binding)).
Proof.
  split; [reflexivity|].
  exact (close_frame sample_env [node_external] sample_world sample_binding eq_refl).
Defined.

(** ** Three reports of the native library, and their delivery *)

(** The native library reports that the attempt failed: the call of the
    setup handler that would tell the host is outside the C semantics, with
    or without an environment. *)
Example failed_report_is_not_delivered :
  run [sample_connect; NativeSetup None 5] sample_world = Some sample_failed_report_world
  /\ step (DeliverSetup (Some sample_env)) sample_failed_report_world
     = Some (Undefined "setup_data->binding: context is not event data")
  /\ step (DeliverSetup None) sample_failed_report_world
     = Some (Undefined "setup_data->binding: context is not event data").
Proof. repeat split. Qed.

(** The native library reports connection 7 and later its shutdown: neither
    call can be delivered. *)
Example shutdown_is_not_delivered :
  run [sample_connect; NativeSetup (Some 7) 0; NativeShutdown 7 0] sample_world
  = Some sample_shut_down_world
  /\ step (DeliverSetup (Some sample_env)) sample_shut_down_world
     = Some (Undefined "setup_data->binding: context is not event data")
  /\ step (DeliverShutdown (Some sample_env)) sample_shut_down_world
     = Some (Undefined "shutdown_data->binding: context is NULL").
Proof. repeat split. Qed.

(** The host has closed the binding before the native library reports
    connection 7: the connection is not closed. *)
Example abandoned_report_is_not_delivered :
  run [NativeSetup (Some 7) 0] sample_abandoned_world = Some sample_abandoned_reported_world
  /\ step (DeliverSetup (Some sample_env)) sample_abandoned_reported_world
     = Some (Undefined "setup_data->binding: context is not event data")
  /\ count (closes 7) (trace sample_abandoned_reported_world) = 0.
Proof. repeat split. Qed.

(** * Further properties *)

(** ** [create], success and failure *)

Lemma s_init_valid env ps host_name z b :
  get_property AWS_EVENT_STREAM_PROPERTY_NAME_HOST ps = Some (JsString host_name) ->
  env_string_new_ok env = true ->
  get_property AWS_EVENT_STREAM_PROPERTY_NAME_PORT ps = Some (JsNumber z) ->
  (1 <= z <= UINT16_MAX)%Z ->
  s_init_event_stream_connection_configuration_from_js_connection_configuration
    env (JsObject ps) b
  = (set_port z (set_host (Some host_name) b), None).
Proof.
  intros Hh Hs Hp [Hz0 Hz1].
  unfold s_init_event_stream_connection_configuration_from_js_connection_configuration,
    aws_napi_get_named_property_as_uint16, aws_napi_get_named_property.
  rewrite Hh, Hp. simpl. rewrite Hs. simpl.
  apply Z.leb_le in Hz0. apply Z.leb_le in Hz1. rewrite Hz0, Hz1. reflexivity.
Qed.


Lemma create_done
  (env : napi_env) (info : list napi_value) (b : binding) (r1 r2 : napi_ref) :
  creatable env info b r1 r2 ->
  aws_napi_event_stream_client_connection_new env info empty_world
  = Done (Some node_external, created_world b r1 r2).
Proof.
  intros (c & o & s & m & so & t & ps & host_name & z & oso & otls
          & -> & Hcb & Hext & Hc & Hr1 & -> & Hh & Hs & Hp & Hz & Hsn & Hmn & Hts
          & Hso & Htls & Hr2 & ->).
  unfold aws_napi_event_stream_client_connection_new.
  rewrite Hcb, Hext. simpl.
  unfold new_arg_connection. rewrite Hc, Hr1. simpl.
  unfold new_arg_options. simpl.
  rewrite (s_init_valid env ps host_name z _ Hh Hs Hp Hz). simpl.
  unfold new_arg_shutdown. rewrite Hsn, Hts. simpl.
  unfold new_arg_message. rewrite Hmn, Hts. simpl.
  unfold new_arg_socket_options, new_arg_tls, new_external_ref.
  unfold optional_socket_options in Hso. unfold optional_tls in Htls.
  destruct (aws_napi_is_null_or_undefined so) eqn:Hson;
    destruct (aws_napi_is_null_or_undefined t) eqn:Htn.
  - inversion Hso. inversion Htls. simpl. rewrite Hr2. reflexivity.
  - inversion Hso. destruct t as [| | | | | |[| | |tc]]; try discriminate Htls.
    inversion Htls. simpl. rewrite Hr2. reflexivity.
  - inversion Htls. destruct so as [| | | | | |[| |os|]]; try discriminate Hso.
    inversion Hso. simpl. rewrite Hr2. reflexivity.
  - destruct so as [| | | | | |[| |os|]]; try discriminate Hso.
    destruct t as [| | | | | |[| | |tc]]; try discriminate Htls.
    inversion Hso. inversion Htls. simpl. rewrite Hr2. reflexivity.
Qed.

(** X1.  [create] succeeds on six arguments of which the first four are
    there, the options carry a string host name and a port from 1 to 65535,
    and the last two are left out or hold what they should, when the host
    grants the external, the two references and the thread-safe functions:
    it returns the external, throws nothing, and leaves a binding with one
    reference, no connection, not closed, the host name, port, socket
    options and tls context of the arguments cached, and tls in use exactly
    when a tls context was given. *)
Theorem create_succeeds
  (env : napi_env) (info : list napi_value) (b : binding) (r1 r2 : napi_ref) :
  creatable env info b r1 r2 ->
  aws_napi_event_stream_client_connection_new env info empty_world
  = Done (Some node_external, created_world b r1 r2).
Proof. exact (create_done env info b r1 r2). Qed.






(** ** [connect], its arguments and its configuration *)



(** X5.  A [connect] call that returns has either reached the native
    library, on a live binding that is not closed and has no connection,
    with the handle as its first argument, or it has done nothing but throw
    one error: the binding, its reference count and the queues are then what
    they were. *)
Theorem connect_throws_or_reaches_native
  (env : napi_env) (info : list napi_value) (r : Z) (w w' : world) :
  aws_napi_event_stream_client_connection_connect env info r w = Done w' ->
  only_threw w w'
  \/ exists b callback,
       info = [node_external; callback]
       /\ connectable env w b
       /\ trace w' = trace w ++ connect_trace b r.
Proof.
  intros E. destruct (connect_cases env info r w w' E) as [H|(b & callback & Hi & Hpre & Hw')].
  - left. exact H.
  - right. exists b, callback. split; [exact Hi|]. split; [exact Hpre|].
    subst w'. unfold connect_trace. destruct (Z.eqb r 0).
    + rewrite app_nil_r. reflexivity.
    + reflexivity.
Qed.
(** ** The handlers *)

(** [connect] aborts on its assertion only. *)
Lemma connect_fatal_needs_connection env info r w what :
  aws_napi_event_stream_client_connection_connect env info r w = Fatal what ->
  exists b x, heap w = Some b /\ connection b = Some x.
Proof.
  unfold aws_napi_event_stream_client_connection_connect.
  destruct (negb (env_get_cb_info_ok env)); [discriminate|].
  destruct info as [|node_binding [|callback [|]]]; try discriminate.
  destruct (napi_get_value_external node_binding) as [p|]; [|discriminate].
  destruct p; simpl; try discriminate.
  unfold deref. destruct (heap w) as [b|]; [|discriminate].
  destruct (is_closed b); [discriminate|].
  destruct (connection b) as [x|] eqn:Hc.
  { intros _. exists b, x. split; [reflexivity|exact Hc]. }
  destruct (negb (env_create_threadsafe_function_ok env)); [discriminate|].
  unfold aws_ref_count_acquire, deref. simpl.
  destruct (ref_count b) as [|n]; simpl; [discriminate|].
  destruct (Z.eqb r 0); [discriminate|].
  unfold aws_ref_count_release, deref. simpl. discriminate.
Qed.


(** X7.  The connection field stays empty.  Its only writer is the setup
    handler, whose call does not return: in every run in which each step
    returns, from a world whose binding holds no connection, the binding
    holds none afterwards; so [connect] never stops at its assertion, and
    the finalizer of the external never releases a native connection. *)
Theorem connection_field_stays_empty (ls : list label) (w w' : world) :
  registered w ->
  connection_empty w ->
  run ls w = Some w' ->
  connection_empty w'
  /\ (forall env info r what,
        aws_napi_event_stream_client_connection_connect env info r w' <> Fatal what)
  /\ (forall env w'',
        s_aws_event_stream_client_connection_extern_finalize env w' = Done w'' ->
        count is_native_release (trace w'') = count is_native_release (trace w')).
Proof.
  intros Hreg Hemp Hrun.
  destruct (settled_run ls w w' Hreg Hemp Hrun) as (_ & Hreg' & Hemp' & _).
  split; [exact Hemp'|]. split.
  - intros env info r what E.
    destruct (connect_fatal_needs_connection env info r w' what E) as (b & x & Hb & Hc).
    unfold connection_empty in Hemp'. rewrite Hb in Hemp'. congruence.
  - intros env w'' E.
    assert (Hs : step (Collect env) w' = Some (Done w'')) by (simpl; rewrite E; reflexivity).
    destruct (settled_step _ w' w'' Hreg' Hemp' Hs) as (_ & _ & _ & Hc & _).
    apply (continues_counts no_handler_effect _ _ _) with (2 := Hc).
    intros [] He; try reflexivity; discriminate He.
Qed.

(** ** [close] and the host references *)

Lemma close_binding_close_events env w :
  returns (s_close_binding env w) (continues is_close_event w).
Proof.
  apply s_close_binding_returns. intros b Hb.
  eexists. split; [reflexivity|]. apply close_binding_fields_snd. reflexivity.
Qed.

Lemma close_close_events env info w :
  returns (aws_napi_event_stream_client_connection_close env info w)
          (continues is_close_event w).
Proof.
  assert (Hthrow : forall msg, continues is_close_event w (throw msg w)).
  { intros msg. exists [EvThrow msg]. split; reflexivity. }
  unfold aws_napi_event_stream_client_connection_close, as_binding_ptr.
  repeat (step_returns; simpl); try apply Hthrow.
  destruct e; simpl; repeat step_returns; try apply Hthrow.
  apply close_binding_close_events.
Qed.

(** X9.  However often and with whatever arguments the host calls [close],
    all that happens is that errors are thrown and host references deleted:
    [close] never closes or releases the native connection, never takes or
    gives back a reference on the binding, never calls a host callback. *)
Theorem close_is_host_only
  (n : nat) (env : napi_env) (info : list napi_value) (w w' : world) :
  close_times n env info w = Done w' ->
  (exists es, trace w' = trace w ++ es /\ forallb is_close_event es = true)
  /\ count is_native_close (trace w') = count is_native_close (trace w)
  /\ count is_native_release (trace w') = count is_native_release (trace w)
  /\ count is_ref_acquire (trace w') = count is_ref_acquire (trace w)
  /\ count is_ref_release (trace w') = count is_ref_release (trace w)
  /\ count is_host_callback (trace w') = count is_host_callback (trace w)
  /\ finalizer_runs w' = finalizer_runs w.
Proof.
  intros E.
  assert (Hc : continues is_close_event w w').
  { revert w E. induction n as [|n IH]; simpl; intros w E.
    - inversion E. apply continues_refl. reflexivity.
    - destruct (aws_napi_event_stream_client_connection_close env info w) as [w1| |] eqn:E1;
        try discriminate E.
      simpl in E. exact (continues_trans _ _ _ _ (close_close_events env info w w1 E1)
                                          (IH w1 E)). }
  split; [exact Hc|].
  assert (Hk : forall p, (forall e, is_close_event e = true -> p e = false) ->
                         count p (trace w') = count p (trace w)).
  { intros p Hp. exact (continues_count _ p _ _ Hp Hc). }
  unfold finalizer_runs.
  repeat split; apply Hk; intros [] He; try discriminate He; reflexivity.
Qed.

(** ** No host reference is deleted twice *)

Lemma within_budget_trans w1 w2 w3 :
  within_budget w1 w2 -> within_budget w2 w3 -> within_budget w1 w3.
Proof. intros H12 H23 r. specialize (H12 r). specialize (H23 r). lia. Qed.

Lemma within_budget_same w w' :
  heap w' = heap w -> trace w' = trace w -> within_budget w w'.
Proof.
  intros Hh Ht r. unfold reference_budget, holds_reference. rewrite Hh, Ht. lia.
Qed.

Lemma count_deletes_none r es :
  forallb not_delete es = true -> count (deletes r) es = 0.
Proof.
  intros H. apply count_none.
  rewrite forallb_forall in *. intros e He. specialize (H e He).
  destruct e; try reflexivity. discriminate H.
Qed.

(** Events that delete nothing, and fields that hold no more than before. *)
Lemma within_budget_events es w w' :
  trace w' = trace w ++ es ->
  forallb not_delete es = true ->
  (forall r, holds_reference r w' <= holds_reference r w) ->
  within_budget w w'.
Proof.
  intros Ht Hes Hh r. unfold reference_budget.
  rewrite Ht, count_app, (count_deletes_none r es Hes). specialize (Hh r). lia.
Qed.

Lemma within_budget_throw msg w : within_budget w (throw msg w).
Proof.
  apply (within_budget_events [EvThrow msg]); try reflexivity.
Qed.

Ltac holds_less :=
  let r := fresh "r" in
  intros r; unfold holds_reference; simpl;
  repeat match goal with
    | H : heap ?w = _ |- context [heap ?w] => rewrite H
    end;
  simpl; try lia.

Lemma forallb_not_delete_clean f :
  forallb not_delete (clean_threadsafe_function f) = true.
Proof. destruct f; reflexivity. Qed.

Lemma on_zero_within_budget w :
  returns (s_aws_event_stream_client_connection_binding_on_zero w) (within_budget w).
Proof.
  unfold s_aws_event_stream_client_connection_binding_on_zero.
  repeat step_returns.
  apply (within_budget_events (on_zero_events b)); [reflexivity| |holds_less].
  unfold on_zero_events. simpl.
  rewrite !forallb_app, !forallb_not_delete_clean. reflexivity.
Qed.

Lemma release_within_budget p w :
  returns (s_aws_event_stream_client_connection_binding_release p w) (within_budget w).
Proof.
  unfold s_aws_event_stream_client_connection_binding_release, aws_ref_count_release.
  repeat step_returns.
  - apply within_budget_same; reflexivity.
  - eapply returns_weaken; [apply on_zero_within_budget|]. intros w' H.
    refine (within_budget_trans _ _ _ _ H).
    apply (within_budget_events [EvRefRelease]); [reflexivity|reflexivity|holds_less].
  - apply (within_budget_events [EvRefRelease]); [reflexivity|reflexivity|holds_less].
Qed.

Lemma acquire_within_budget p w :
  returns (s_aws_event_stream_client_connection_binding_acquire p w) (within_budget w).
Proof.
  unfold s_aws_event_stream_client_connection_binding_acquire, aws_ref_count_acquire.
  repeat step_returns.
  - apply within_budget_same; reflexivity.
  - apply (within_budget_events [EvRefAcquire]); [reflexivity|reflexivity|holds_less].
Qed.

(** [s_close_binding] deletes what the two fields held, and clears them. *)
Lemma close_binding_within_budget env w :
  returns (s_close_binding env w) (within_budget w).
Proof.
  apply s_close_binding_returns. intros b Hb r.
  unfold reference_budget, holds_reference. simpl. rewrite Hb, count_app.
  destruct env as [e|]; simpl.
  - rewrite count_app.
    destruct (node_event_stream_client_connection_external_ref b) as [x|];
      destruct (node_event_stream_client_connection_ref b) as [y|]; simpl;
      rewrite ?count_one; simpl;
      repeat match goal with |- context [Nat.eqb ?a ?b] => destruct (Nat.eqb a b) end;
      unfold count; simpl; lia.
  - unfold count. simpl. lia.
Qed.

Lemma within_budget_emit e w :
  not_delete e = true -> within_budget w (emit e w).
Proof.
  intros He. apply (within_budget_events [e]); [reflexivity| |holds_less].
  simpl. rewrite He. reflexivity.
Qed.

Lemma finalize_within_budget env w :
  returns (s_aws_event_stream_client_connection_extern_finalize env w) (within_budget w).
Proof.
  unfold s_aws_event_stream_client_connection_extern_finalize.
  repeat step_returns.
  - apply (within_budget_events [EvNativeRelease (Some c)]);
      [reflexivity|reflexivity|holds_less].
  - apply returns_then; [exact within_budget_trans|apply close_binding_within_budget|].
    intros w1. apply release_within_budget.
  - apply within_budget_same; reflexivity.
Qed.

Lemma setup_close_within_budget env w :
  returns (setup_close env w) (within_budget w).
Proof.
  unfold setup_close.
  apply returns_then; [exact within_budget_trans|apply close_binding_within_budget|].
  intros w1. repeat step_returns.
  - apply within_budget_emit. reflexivity.
  - apply within_budget_same; reflexivity.
Qed.

Lemma setup_done_within_budget w :
  returns (setup_done w) (within_budget w).
Proof.
  unfold setup_done. repeat step_returns.
  - apply within_budget_same; reflexivity.
  - apply release_within_budget.
Qed.

Lemma ensure_dispatch_within_budget env e w :
  not_delete e = true ->
  returns (ensure_dispatch env e w) (within_budget w).
Proof.
  intros He. unfold ensure_dispatch. repeat step_returns.
  apply within_budget_emit, He.
Qed.

Lemma setup_within_budget env context user_data w :
  returns (s_napi_on_event_stream_client_connection_setup env context user_data w)
          (within_budget w).
Proof.
  unfold s_napi_on_event_stream_client_connection_setup.
  destruct context as [| |d]; try apply returns_undefined.
  step_returns.
  assert (Hstore : within_budget w (store (set_connection (data_connection d) b) w)).
  { apply (within_budget_events []); [simpl; rewrite app_nil_r; reflexivity
                                     |reflexivity|holds_less]. }
  assert (Hclose : returns (setup_close env (store (set_connection (data_connection d) b) w))
                           (within_budget w)).
  { eapply returns_weaken; [apply setup_close_within_budget|].
    intros w' H. exact (within_budget_trans _ _ _ Hstore H). }
  apply returns_then; [exact within_budget_trans| |intros; apply setup_done_within_budget].
  destruct env as [e|]; [|exact Hclose].
  repeat step_returns; try exact Hclose.
  eapply returns_weaken; [apply ensure_dispatch_within_budget; reflexivity|].
  intros w' H. exact (within_budget_trans _ _ _ Hstore H).
Qed.

Lemma shutdown_notify_within_budget env d b w :
  returns (shutdown_notify env d b w) (within_budget w).
Proof.
  unfold shutdown_notify.
  repeat step_returns; try (apply within_budget_same; reflexivity).
  apply ensure_dispatch_within_budget. reflexivity.
Qed.

Lemma shutdown_within_budget env context user_data w :
  returns (s_napi_event_stream_connection_on_connection_shutdown env context user_data w)
          (within_budget w).
Proof.
  unfold s_napi_event_stream_connection_on_connection_shutdown.
  destruct context as [| |d]; try apply returns_undefined.
  repeat step_returns.
  apply returns_then;
    [exact within_budget_trans|apply shutdown_notify_within_budget|].
  intros w1.
  apply returns_then; [exact within_budget_trans|apply close_binding_within_budget|].
  intros w2. step_returns.
  eapply returns_weaken; [apply release_within_budget|]. intros w' H.
  refine (within_budget_trans _ _ _ _ H).
  apply (within_budget_events [EvNativeRelease (connection b0)]);
    [reflexivity|reflexivity|holds_less].
Qed.

Lemma close_within_budget env info w :
  returns (aws_napi_event_stream_client_connection_close env info w) (within_budget w).
Proof.
  unfold aws_napi_event_stream_client_connection_close, as_binding_ptr.
  repeat (step_returns; simpl); try apply within_budget_throw.
  destruct e; simpl; repeat step_returns; try apply within_budget_throw.
  apply close_binding_within_budget.
Qed.

Lemma connect_within_budget env info r w :
  returns (aws_napi_event_stream_client_connection_connect env info r w) (within_budget w).
Proof.
  unfold aws_napi_event_stream_client_connection_connect, as_binding_ptr.
  repeat (step_returns; simpl); try apply within_budget_throw.
  destruct e; simpl; repeat step_returns; try apply within_budget_throw.
  set (w1 := emit _ (store _ w)).
  assert (H1 : within_budget w w1).
  { apply (within_budget_events
             [EvCreateThreadsafeFunction (tsfn_name (setup_tsfn n0))]);
      [reflexivity|reflexivity|holds_less]. }
  apply returns_bind.
  eapply returns_weaken; [apply (acquire_within_budget TheBinding)|]. intros w2 H2.
  assert (H3 : forall e, not_delete e = true -> within_budget w (emit e w2)).
  { intros e He. refine (within_budget_trans _ _ _ H1 _).
    refine (within_budget_trans _ _ _ H2 _). apply within_budget_emit, He. }
  destruct (Z.eqb r 0).
  - apply returns_done, H3. reflexivity.
  - apply returns_bind.
    eapply returns_weaken; [apply (release_within_budget TheBinding)|]. intros w4 H4.
    apply returns_done.
    refine (within_budget_trans _ _ _ (H3 (EvNativeConnect _ _ _ false) eq_refl) _).
    refine (within_budget_trans _ _ _ H4 _). apply within_budget_throw.
Qed.

Lemma step_within_budget l w w' :
  step l w = Some (Done w') -> within_budget w w'.
Proof.
  destruct l; simpl; intros H.
  - inversion H as [E]. exact (connect_within_budget _ _ _ _ _ E).
  - inversion H as [E]. exact (close_within_budget _ _ _ _ E).
  - inversion H as [E]. exact (finalize_within_budget _ _ _ E).
  - destruct (Nat.ltb 0 (pending_setups w)); [|discriminate H].
    inversion H as [E]. revert E.
    unfold s_aws_event_stream_rpc_client_on_connection_setup_fn, deref.
    destruct (heap w) as [b|] eqn:Hb; [|discriminate].
    destruct (on_connection_setup b); [|discriminate].
    intros E. inversion E.
    apply (within_budget_events [EvQueueSetup {| error_code := code; data_connection := conn |}]);
      [reflexivity|reflexivity|holds_less].
  - destruct (awaiting_shutdown c w); [|discriminate H].
    inversion H as [E]. revert E.
    unfold s_aws_event_stream_rpc_client_on_connection_shutdown_fn, deref.
    destruct (heap w) as [b|] eqn:Hb; [|discriminate].
    destruct (on_connection_shutdown b); [|discriminate].
    intros E. inversion E.
    apply (within_budget_events
             [EvQueueShutdown {| error_code := code; data_connection := Some c |}]);
      [reflexivity|reflexivity|holds_less].
  - destruct (awaiting_shutdown c w); [|discriminate H].
    inversion H. subst. apply within_budget_same; reflexivity.
  - unfold pop_setup in H. destruct (setup_queue w) as [|d q]; [discriminate H|].
    inversion H as [E]. apply setup_within_budget in E. exact E.
  - unfold pop_shutdown in H. destruct (shutdown_queue w) as [|d q]; [discriminate H|].
    inversion H as [E]. apply shutdown_within_budget in E. exact E.
Qed.

(** X10.  No host reference is deleted twice.  Over any run of host calls,
    collections, native callbacks and deliveries, in any order, the number
    of times a host reference has been handed to [napi_delete_reference]
    plus the number of fields of the binding that still hold it never
    grows: a reference is deleted only out of a field that held it, and the
    field is cleared by then.  A reference held once and not yet deleted is
    deleted at most once. *)
Theorem host_references_deleted_at_most_once
  (ls : list label) (w w' : world) (r : napi_ref) :
  run ls w = Some w' ->
  reference_budget r w' <= reference_budget r w
  /\ (count (deletes r) (trace w) = 0 -> holds_reference r w <= 1 ->
      count (deletes r) (trace w') <= 1).
Proof.
  intros H.
  assert (Hb : within_budget w w').
  { revert w H. induction ls as [|l ls IH]; simpl; intros w H.
    - inversion H. subst. apply within_budget_same; reflexivity.
    - destruct (step l w) as [[w1| |]|] eqn:Hs; try discriminate H.
      exact (within_budget_trans _ _ _ (step_within_budget _ _ _ Hs) (IH _ H)). }
  split; [apply Hb|].
  intros H0 H1. specialize (Hb r). unfold reference_budget in Hb. lia.
Qed.

(** ** A binding closed with nothing in flight *)

Lemma connect_closed_only_throws env info r w b :
  heap w = Some b -> is_closed b = true ->
  returns (aws_napi_event_stream_client_connection_connect env info r w)
          (fun w' => exists msg, w' = throw msg w).
Proof.
  intros Hb Hc.
  unfold aws_napi_event_stream_client_connection_connect, as_binding_ptr.
  repeat (step_returns; simpl); try (eexists; reflexivity).
  destruct e; simpl; repeat step_returns; try (eexists; reflexivity);
    intros w' _; exfalso; congruence.
Qed.

Lemma close_throws_or_closes env info w b :
  heap w = Some b ->
  returns (aws_napi_event_stream_client_connection_close env info w)
          (fun w' => (exists msg, w' = throw msg w)
                     \/ w' = emits (snd (close_binding_fields (Some env) b))
                                   (store (closed_fields b) w)).
Proof.
  intros Hb.
  unfold aws_napi_event_stream_client_connection_close, as_binding_ptr.
  repeat (step_returns; simpl); try (left; eexists; reflexivity).
  destruct e; simpl; repeat step_returns; try (left; eexists; reflexivity).
  apply s_close_binding_returns. intros b0 Hb0. right.
  assert (b0 = b) by congruence. subst b0. reflexivity.
Qed.

Lemma parked_throw n msg w : parked n w -> parked n (throw msg w).
Proof.
  intros [Hq Hb]. split; [|exact Hb].
  exact (quiet_step_quiescent _ _ (quiet_step_throw msg w) Hq).
Qed.

Lemma continues_throw msg w : continues is_close_event w (throw msg w).
Proof. exists [EvThrow msg]. split; reflexivity. Qed.

Lemma parked_step n l w w' :
  parked n w -> step l w = Some (Done w') ->
  parked n w' /\ continues is_close_event w w'.
Proof.
  intros Hp Hs.
  destruct (is_delivery l) eqn:Hd.
  { rewrite (quiescent_no_delivery l w (proj1 Hp) Hd) in Hs. discriminate Hs. }
  destruct Hp as [Hq (b & Hb & Hc & Hn & Hr)].
  destruct l; try discriminate Hd; simpl in Hs; inversion Hs as [E]; clear Hs.
  - destruct (connect_closed_only_throws env info connect_result w b Hb Hc w' E)
      as [msg ->].
    split; [apply parked_throw|apply continues_throw].
    split; [exact Hq|]. exists b. auto.
  - destruct (close_throws_or_closes env info w b Hb w' E) as [[msg ->]| ->].
    + split; [apply parked_throw|apply continues_throw].
      split; [exact Hq|]. exists b. auto.
    + split; [split|].
      * refine (quiet_step_quiescent _ _ _ Hq).
        eapply quiet_step_events; try reflexivity.
        apply close_binding_fields_snd. reflexivity.
      * exists (closed_fields b). simpl. auto.
      * eexists. split; [reflexivity|]. apply close_binding_fields_snd. reflexivity.
  - revert E. unfold s_aws_event_stream_client_connection_extern_finalize, deref.
    rewrite Hb, Hn, Hc. simpl. intros E. inversion E. subst w'.
    split; [|apply continues_refl; reflexivity].
    split; [exact Hq|]. exists b. auto.
Qed.

Lemma parked_run
  (n : nat) (ls : list label) (w w' : world) :
  parked n w -> run ls w = Some w' ->
  parked n w'
  /\ forallb (fun l => negb (is_delivery l)) ls = true
  /\ (exists es, trace w' = trace w ++ es /\ forallb is_close_event es = true)
  /\ count is_ref_release (trace w') = count is_ref_release (trace w)
  /\ count is_native_connect (trace w') = count is_native_connect (trace w)
  /\ finalizer_runs w' = finalizer_runs w.
Proof.
  intros Hp Hrun.
  assert (H : parked n w' /\ forallb (fun l => negb (is_delivery l)) ls = true
              /\ continues is_close_event w w').
  { revert w Hp Hrun. induction ls as [|l ls IH]; simpl; intros w Hp Hrun.
    - inversion Hrun. subst. split; [exact Hp|].
      split; [reflexivity|apply continues_refl; reflexivity].
    - destruct (step l w) as [[w1| |]|] eqn:Hs; try discriminate Hrun.
      destruct (is_delivery l) eqn:Hd.
      { rewrite (quiescent_no_delivery l w (proj1 Hp) Hd) in Hs. discriminate Hs. }
      destruct (parked_step n l w w1 Hp Hs) as [Hp1 Hc1].
      destruct (IH w1 Hp1 Hrun) as (Hp' & Hnd & Hc2).
      split; [exact Hp'|]. split; [exact Hnd|].
      exact (continues_trans _ _ _ _ Hc1 Hc2). }
  destruct H as (Hp' & Hnd & Hc).
  split; [exact Hp'|]. split; [exact Hnd|]. split; [exact Hc|].
  assert (Hk : forall p, (forall e, is_close_event e = true -> p e = false) ->
                         count p (trace w') = count p (trace w)).
  { intros p Hpe. exact (continues_count _ p _ _ Hpe Hc). }
  unfold finalizer_runs.
  repeat split; apply Hk; intros [] He; try discriminate He; reflexivity.
Qed.

(** X11.  A binding that is closed while no connection is held and nothing
    native is outstanding is never released.  Whatever the host and the
    collector do from then on, in any order: no native callback and no
    delivery can happen; every [connect] throws; all that is added to the
    trace are thrown errors and deletions of host references; the binding
    stays allocated, closed, without connection, and with the reference
    count it had, so its finalizer does not run: the collection of the
    external gives the construction reference back only while the binding
    is still open. *)
Theorem closed_binding_keeps_its_reference
  (n : nat) (ls : list label) (w w' : world) :
  parked n w -> run ls w = Some w' ->
  parked n w'
  /\ forallb (fun l => negb (is_delivery l)) ls = true
  /\ (exists es, trace w' = trace w ++ es /\ forallb is_close_event es = true)
  /\ count is_ref_release (trace w') = count is_ref_release (trace w)
  /\ count is_native_connect (trace w') = count is_native_connect (trace w)
  /\ finalizer_runs w' = finalizer_runs w.
Proof. exact (parked_run n ls w w'). Qed.

(** ** [connect] while an attempt is in flight *)

Lemma last_cons {A : Type} (l : list A) (x d : A) : last (x :: l) d = last l x.
Proof.
  revert x d. induction l as [|y l IH]; intros x d; [reflexivity|].
  change (last (x :: y :: l) d) with (last (y :: l) d).
  rewrite (IH y d), (IH y x). reflexivity.
Qed.

Lemma connectable_connecting env callback w b :
  connectable env w b ->
  connectable env (emits (connect_events b true) (store (connecting callback b) w))
              (connecting callback b).
Proof.
  intros (Hb & Hc & Hn & Hr & Hcb & Hts).
  unfold connectable. simpl. repeat split; try assumption. lia.
Qed.

Lemma accepted_connects_run env callbacks : forall w b,
  connectable env w b ->
  exists w' b',
    run (accepted_connects env callbacks) w = Some w'
    /\ heap w' = Some b'
    /\ connectable env w' b'
    /\ ref_count b' = ref_count b + List.length callbacks
    /\ on_connection_setup b' = last_setup_tsfn callbacks (on_connection_setup b)
    /\ count is_accepted_connect (trace w')
       = count is_accepted_connect (trace w) + List.length callbacks
    /\ count is_queue_setup (trace w') = count is_queue_setup (trace w)
    /\ count is_create_threadsafe_function (trace w')
       = count is_create_threadsafe_function (trace w) + List.length callbacks
    /\ count is_release_threadsafe_function (trace w')
       = count is_release_threadsafe_function (trace w).
Proof.
  induction callbacks as [|callback callbacks IH]; intros w b Hpre.
  - exists w, b. simpl. rewrite !Nat.add_0_r.
    repeat split; try reflexivity; try apply Hpre.
  - pose proof (connect_reaches_native env callback 0 w b Hpre) as E. simpl in E.
    pose proof (connectable_connecting env callback w b Hpre) as Hpre1.
    destruct (IH _ _ Hpre1) as (w' & b' & Hrun & Hb' & Hpre' & Hn & Hf & Ha & Hq & Hc & Hr).
    exists w', b'. unfold accepted_connects. simpl. rewrite E.
    split; [exact Hrun|]. split; [exact Hb'|]. split; [exact Hpre'|].
    unfold last_setup_tsfn in *. simpl map. rewrite last_cons.
    simpl in Hn, Hf, Ha, Hq, Hc, Hr.
    rewrite !count_app in Ha, Hq, Hc, Hr.
    unfold connect_events in Ha, Hq, Hc, Hr.
    unfold count in Ha, Hq, Hc, Hr. simpl in Ha, Hq, Hc, Hr. unfold count.
    split; [simpl; lia|]. split; [exact Hf|].
    repeat split; simpl; lia.
Qed.

(** X12.  [connect] does not look whether an attempt is already in flight.
    On a binding that is open and holds no connection, every one of a series
    of [connect] calls the native library accepts goes through: each takes a
    reference on the binding and owes a setup callback, each creates a setup
    dispatcher and stores it over the one of the call before, which is not
    released; the binding ends with the dispatcher of the last call. *)
Theorem connect_while_connecting
  (env : napi_env) (callbacks : list napi_value) (w : world) (b : binding) :
  connectable env w b ->
  exists w' b',
    run (accepted_connects env callbacks) w = Some w'
    /\ heap w' = Some b'
    /\ connectable env w' b'
    /\ ref_count b' = ref_count b + List.length callbacks
    /\ on_connection_setup b' = last_setup_tsfn callbacks (on_connection_setup b)
    /\ count is_accepted_connect (trace w')
       = count is_accepted_connect (trace w) + List.length callbacks
    /\ count is_queue_setup (trace w') = count is_queue_setup (trace w)
    /\ count is_create_threadsafe_function (trace w')
       = count is_create_threadsafe_function (trace w) + List.length callbacks
    /\ count is_release_threadsafe_function (trace w')
       = count is_release_threadsafe_function (trace w).
Proof. exact (accepted_connects_run env callbacks w b). Qed.

(** ** The two revisions of the file *)

(** X13.  [close] of the earlier revision, which has the closing of the
    binding in its own body, and [close] of the current one, which calls
    [s_close_binding] with its environment, are the same function: the same
    result and the same world on every call. *)
Theorem close_revisions_agree
  (env : napi_env) (info : list napi_value) (w : world) :
  Earlier.aws_napi_event_stream_client_connection_close env info w
  = aws_napi_event_stream_client_connection_close env info w.
Proof.
  unfold Earlier.aws_napi_event_stream_client_connection_close,
    aws_napi_event_stream_client_connection_close.
  unfold s_close_binding, close_binding_fields. reflexivity.
Qed.

(** X14.  The two revisions of [connect] differ on a closed binding only:
    on a binding that is not closed, and on a binding that is gone, the
    earlier and the current revision give the same result and the same
    world; on a closed binding without connection, with the handle as first
    argument, the earlier revision aborts where the current one throws. *)
Theorem connect_revisions_agree_unless_closed
  (env : napi_env) (info : list napi_value) (r : Z) (w : world) :
  (closed_or_gone w = false \/ heap w = None ->
   Earlier.aws_napi_event_stream_client_connection_connect env info r w
   = aws_napi_event_stream_client_connection_connect env info r w)
  /\ (forall b callback,
        heap w = Some b -> is_closed b = true -> connection b = None ->
        env_get_cb_info_ok env = true ->
        Earlier.aws_napi_event_stream_client_connection_connect
          env [node_external; callback] r w
        = Fatal "binding->is_closed == false"
        /\ aws_napi_event_stream_client_connection_connect
             env [node_external; callback] r w
           = Done (throw "aws_napi_event_stream_client_connection_connect - connection already closed" w)).
Proof.
  split.
  - intros H.
    unfold Earlier.aws_napi_event_stream_client_connection_connect,
      aws_napi_event_stream_client_connection_connect.
    destruct (negb (env_get_cb_info_ok env)); [reflexivity|].
    destruct info as [|node_binding [|callback [|]]]; try reflexivity.
    destruct (napi_get_value_external node_binding) as [p|]; [|reflexivity].
    destruct p; try reflexivity. simpl. unfold deref, closed_or_gone in *.
    destruct (heap w) as [b|]; [|reflexivity].
    destruct H as [H|H]; [|discriminate H]. rewrite H.
    destruct (connection b); reflexivity.
  - intros b callback Hb Hc Hn Hcb.
    unfold Earlier.aws_napi_event_stream_client_connection_connect,
      aws_napi_event_stream_client_connection_connect, deref.
    rewrite Hcb, Hb. simpl. rewrite Hc, Hn. split; reflexivity.
Qed.

(** ** From [create] to the collection of the external *)

(** X15.  What [create] acquires, the collection of the external gives
    back.  When the external of a binding that was created and never
    connected is collected, the finalizer deletes the two host references
    [create] made (when it is given an environment), gives back the one
    reference on the binding, and the teardown destroys the host name and
    the tls options, releases the shutdown and the message dispatcher, and
    frees the binding: nothing is left allocated, and nothing is deleted or
    released that was not created. *)
Theorem create_then_collect_frees_everything
  (env : napi_env) (info : list napi_value) (b : binding) (r1 r2 : napi_ref)
  (env' : option napi_env) :
  creatable env info b r1 r2 ->
  exists w1 w2,
    aws_napi_event_stream_client_connection_new env info empty_world
    = Done (Some node_external, w1)
    /\ s_aws_event_stream_client_connection_extern_finalize env' w1 = Done w2
    /\ heap w2 = None
    /\ trace w2 = created_events r1 r2 ++ collected_events env' b
    /\ collected_events env' b
       = (match env' with
          | Some _ => [EvDeleteReference r2; EvDeleteReference r1]
          | None => []
          end)
         ++ [EvRefRelease; EvStringDestroy; EvTlsCleanUp;
             EvReleaseThreadsafeFunction "aws_event_stream_client_connection_on_connection_shutdown";
             EvReleaseThreadsafeFunction "aws_event_stream_client_connection_on_protocol_message";
             EvMemRelease].
Proof.
  intros Hc. pose proof (create_done env info b r1 r2 Hc) as E.
  destruct Hc as (c & o & s & m & so & t & ps & host_name & z & oso & otls
                  & _ & _ & _ & _ & _ & _ & _ & _ & _ & _ & _ & _ & _ & _ & _ & _ & ->).
  exists (created_world (created_binding r1 r2 host_name z s m oso otls) r1 r2).
  destruct env' as [e|]; eexists; (split; [exact E|]);
    (split; [reflexivity|]); repeat split.
Qed.


(** * The further properties on the concrete host *)

Lemma sample_creatable :
  creatable sample_env (sample_info (sample_options 8080)) sample_binding 1 2.
Proof.
  exists sample_proxy, (sample_options 8080), (JsFunction 1), (JsFunction 2),
    JsUndefined, JsUndefined,
    (PropsCons "hostName" (JsString "localhost")
       (PropsCons "port" (JsNumber 8080) PropsNil)),
    "localhost", 8080%Z, None, None.
  repeat split; try reflexivity; unfold UINT16_MAX; lia.
Defined.

Lemma create_succeeds_witness :
  creatable sample_env (sample_info (sample_options 8080)) sample_binding 1 2
  /\ aws_napi_event_stream_client_connection_new
       sample_env (sample_info (sample_options 8080)) empty_world
     = Done (Some node_external, created_world sample_binding 1 2).
Proof.
  split; [exact sample_creatable|].
  exact (create_succeeds sample_env (sample_info (sample_options 8080))
           sample_binding 1 2 sample_creatable).
Defined.




Lemma connect_throws_or_reaches_native_witness :
  aws_napi_event_stream_client_connection_connect
    sample_env [node_external; JsFunction 3] 0 sample_world
  = Done sample_attempt_world
  /\ (only_threw sample_world sample_attempt_world
      \/ exists b callback,
           [node_external; JsFunction 3] = [node_external; callback]
           /\ connectable sample_env sample_world b
           /\ trace sample_attempt_world = trace sample_world ++ connect_trace b 0).
Proof.
  split; [reflexivity|].
  exact (connect_throws_or_reaches_native sample_env [node_external; JsFunction 3] 0
           sample_world sample_attempt_world eq_refl).
Defined.



Lemma connection_field_stays_empty_witness :
  registered sample_world
  /\ connection_empty sample_world
  /\ run [sample_connect; NativeSetup (Some 7) 0; NativeShutdown 7 0] sample_world
     = Some sample_shut_down_world
  /\ connection_empty sample_shut_down_world
  /\ forall what,
       aws_napi_event_stream_client_connection_connect
         sample_env [node_external; JsFunction 4] 0 sample_shut_down_world
       <> Fatal what.
Proof.
  split; [exact sample_world_registered|]. split; [reflexivity|]. split; [reflexivity|].
  destruct (connection_field_stays_empty
              [sample_connect; NativeSetup (Some 7) 0; NativeShutdown 7 0]
              sample_world sample_shut_down_world sample_world_registered eq_refl eq_refl)
    as (He & Hc & _).
  split; [exact He|]. intros what.
  exact (Hc sample_env [node_external; JsFunction 4] 0%Z what).
Defined.

Lemma close_is_host_only_witness :
  exists w',
    close_times 2 sample_env [node_external] sample_attempt_world = Done w'
    /\ count is_native_close (trace w')
       = count is_native_close (trace sample_attempt_world)
    /\ count is_native_release (trace w')
       = count is_native_release (trace sample_attempt_world)
    /\ count is_ref_release (trace w')
       = count is_ref_release (trace sample_attempt_world)
    /\ finalizer_runs w' = finalizer_runs sample_attempt_world.
Proof.
  eexists. split; [reflexivity|].
  destruct (close_is_host_only 2 sample_env [node_external]
              sample_attempt_world _ eq_refl)
    as (_ & H1 & H2 & _ & H3 & _ & H4).
  split; [exact H1|]. split; [exact H2|]. split; [exact H3|exact H4].
Defined.

Lemma host_references_deleted_at_most_once_witness :
  exists w',
    run [sample_connect; HostClose sample_env [node_external];
         Collect (Some sample_env); HostClose sample_env [node_external]] sample_world
    = Some w'
    /\ count (deletes 1) (trace sample_world) = 0
    /\ holds_reference 1 sample_world <= 1
    /\ count (deletes 1) (trace w') <= 1.
Proof.
  eexists. split; [reflexivity|].
  assert (H0 : count (deletes 1) (trace sample_world) = 0) by reflexivity.
  assert (H1 : holds_reference 1 sample_world <= 1) by (vm_compute; lia).
  split; [exact H0|]. split; [exact H1|].
  exact (proj2 (host_references_deleted_at_most_once
                  [sample_connect; HostClose sample_env [node_external];
                   Collect (Some sample_env); HostClose sample_env [node_external]]
                  sample_world _ 1 eq_refl) H0 H1).
Defined.
Lemma sample_closed_parked : parked 1 sample_closed_world.
Proof.
  split.
  - split; [reflexivity|]. split; [intros c; reflexivity|]. split; reflexivity.
  - exists (closed_fields sample_binding). repeat split.
Defined.

Lemma closed_binding_keeps_its_reference_witness :
  parked 1 sample_closed_world
  /\ exists w',
       run sample_parked_steps sample_closed_world = Some w'
       /\ parked 1 w'
       /\ finalizer_runs w' = finalizer_runs sample_closed_world.
Proof.
  split; [exact sample_closed_parked|].
  eexists. split; [reflexivity|].
  destruct (closed_binding_keeps_its_reference 1 sample_parked_steps
              sample_closed_world _ sample_closed_parked eq_refl)
    as (Hp & _ & _ & _ & _ & Hf).
  split; [exact Hp|exact Hf].
Defined.

Lemma connect_while_connecting_witness :
  connectable sample_env sample_world sample_binding
  /\ exists w' b',
       run (accepted_connects sample_env [JsFunction 3; JsFunction 4]) sample_world
       = Some w'
       /\ heap w' = Some b'
       /\ ref_count b' = 3
       /\ on_connection_setup b' = Some (setup_tsfn (JsFunction 4))
       /\ count is_release_threadsafe_function (trace w')
          = count is_release_threadsafe_function (trace sample_world).
Proof.
  split; [exact sample_world_connectable|].
  destruct (connect_while_connecting sample_env [JsFunction 3; JsFunction 4]
              sample_world sample_binding sample_world_connectable)
    as (w' & b' & Hrun & Hb & _ & Hn & Hf & _ & _ & _ & Hr).
  exists w', b'. split; [exact Hrun|]. split; [exact Hb|].
  split; [exact Hn|]. split; [exact Hf|exact Hr].
Defined.

Lemma connect_revisions_agree_unless_closed_witness :
  closed_or_gone sample_world = false
  /\ Earlier.aws_napi_event_stream_client_connection_connect
       sample_env [node_external; JsFunction 3] 0 sample_world
     = aws_napi_event_stream_client_connection_connect
         sample_env [node_external; JsFunction 3] 0 sample_world
  /\ Earlier.aws_napi_event_stream_client_connection_connect
       sample_env [node_external; JsFunction 3] 0 sample_closed_world
     = Fatal "binding->is_closed == false".
Proof.
  split; [reflexivity|]. split.
  - exact (proj1 (connect_revisions_agree_unless_closed
                    sample_env [node_external; JsFunction 3] 0 sample_world)
                 (or_introl eq_refl)).
  - exact (proj1 (proj2 (connect_revisions_agree_unless_closed
                           sample_env [node_external; JsFunction 3] 0 sample_closed_world)
                        (closed_fields sample_binding) (JsFunction 3)
                        eq_refl eq_refl eq_refl eq_refl)).
Defined.

Lemma create_then_collect_frees_everything_witness :
  creatable sample_env (sample_info (sample_options 8080)) sample_binding 1 2
  /\ exists w1 w2,
       aws_napi_event_stream_client_connection_new
         sample_env (sample_info (sample_options 8080)) empty_world
       = Done (Some node_external, w1)
       /\ s_aws_event_stream_client_connection_extern_finalize (Some sample_env) w1
          = Done w2
       /\ heap w2 = None
       /\ trace w2 = created_events 1 2 ++ collected_events (Some sample_env) sample_binding.
Proof.
  split; [exact sample_creatable|].
  destruct (create_then_collect_frees_everything sample_env
              (sample_info (sample_options 8080)) sample_binding 1 2
              (Some sample_env) sample_creatable)
    as (w1 & w2 & E1 & E2 & Hh & Ht & _).
  exists w1, w2. split; [exact E1|]. split; [exact E2|]. split; [exact Hh|exact Ht].
Defined.

